(** * Feedback Loop: rotation tracking and jump metrics

    A shallow embedding of the signal-processing core of the figure-skating
    analyzer: [angleAnalysisService.ts] (angle extraction, gap filling, the
    two-pass cumulative rotation tracker) and [jumpMetricsService.ts] (the
    jump window and metrics engine).

    JavaScript numbers are IEEE-754 binary64 values.  The code is embedded
    once, generically over an interface [JSNumber] of the arithmetic it uses,
    and read at two instances:
    - [Float64]: Rocq's primitive binary64 floats, bit for bit what the
      JavaScript engine computes (used to run the code on concrete inputs);
    - [Exact]: the real numbers, i.e. the same code with rounding, overflow
      and NaN idealised away (used for the algebraic properties). *)

From Stdlib Require Import List ZArith Bool Lia Reals Lra Sorting.Sorted.
From Stdlib Require Floats Uint63.
Import ListNotations.

Set Implicit Arguments.
#[local] Set Warnings "-inexact-float".

(** ** The arithmetic of JavaScript numbers *)

Class JSNumber (A : Type) : Type := {
  ofZ  : Z -> A;            (* an integer literal *)
  nadd : A -> A -> A;
  nsub : A -> A -> A;
  nmul : A -> A -> A;
  ndiv : A -> A -> A;
  nopp : A -> A;            (* unary minus *)
  nltb : A -> A -> bool;    (* a < b *)
  nleb : A -> A -> bool;    (* a <= b *)
  neqb : A -> A -> bool;    (* a === b *)
  Math_abs  : A -> A;
  Math_sqrt : A -> A;
  Math_max  : A -> A -> A;
  Math_min  : A -> A -> A
}.

(** The transcendental part of [Math], used by angle extraction only. *)
Class JSTrig (A : Type) : Type := {
  Math_acos  : A -> A;
  Math_atan2 : A -> A -> A;
  Math_PI    : A
}.

Declare Scope js_scope.
Delimit Scope js_scope with js.
Notation "a + b" := (nadd a b) : js_scope.
Notation "a - b" := (nsub a b) : js_scope.
Notation "a * b" := (nmul a b) : js_scope.
Notation "a / b" := (ndiv a b) : js_scope.
Notation "- a" := (nopp a) : js_scope.
Notation "a <? b" := (nltb a b) (at level 70) : js_scope.
Notation "a >? b" := (nltb b a) (at level 70) : js_scope.
Notation "a <=? b" := (nleb a b) (at level 70) : js_scope.
Notation "a >=? b" := (nleb b a) (at level 70) : js_scope.
Notation "a =? b" := (neqb a b) (at level 70) : js_scope.
Notation "' n" := (ofZ n%Z) (at level 1, format "' n") : js_scope.

(** A decimal literal [n/d] ([9.81] is [decimal 981 100]).  Both integers are
    exact in binary64 and IEEE division rounds correctly, so at [Float64] this
    is the double the JavaScript parser produces for the literal. *)
Definition decimal {A} `{JSNumber A} (n d : Z) : A := ('n / 'd)%js.

(** Truthiness of a number: [0], [-0] and [NaN] are falsy. *)
Definition falsy {A} `{JSNumber A} (v : A) : bool :=
  ((v =? '0) || negb (v =? v))%js.

Module Float64.
Import Floats.PrimFloat.

Definition of_Z (z : Z) : float :=
  match z with
  | Zneg p => opp (of_uint63 (Uint63.of_Z (Zpos p)))
  | _ => of_uint63 (Uint63.of_Z z)
  end.

(** [Math.max]/[Math.min]: NaN if either argument is NaN, and [+0] is
    larger than [-0]. *)
Definition is_neg_zero (a : float) : bool :=
  eqb a zero && ltb (div one a) zero.

Definition max (a b : float) : float :=
  if is_nan a || is_nan b then nan
  else if ltb a b then b
  else if ltb b a then a
  else if is_neg_zero a then b else a.

Definition min (a b : float) : float :=
  if is_nan a || is_nan b then nan
  else if ltb a b then a
  else if ltb b a then b
  else if is_neg_zero a then a else b.

#[export] Instance number : JSNumber float := {|
  ofZ := of_Z;
  nadd := add; nsub := sub; nmul := mul; ndiv := div; nopp := opp;
  nltb := ltb; nleb := leb; neqb := eqb;
  Math_abs := abs; Math_sqrt := sqrt;
  Math_max := max; Math_min := min
|}.
End Float64.
Export (hints) Float64.

Module Exact.
Definition ltb (a b : R) : bool := if Rlt_dec a b then true else false.
Definition leb (a b : R) : bool := if Rle_dec a b then true else false.
Definition eqb (a b : R) : bool := if Req_dec_T a b then true else false.

#[export] Instance number : JSNumber R := {|
  ofZ := IZR;
  nadd := Rplus; nsub := Rminus; nmul := Rmult; ndiv := Rdiv; nopp := Ropp;
  nltb := ltb; nleb := leb; neqb := eqb;
  Math_abs := Rabs; Math_sqrt := sqrt;
  Math_max := Rmax; Math_min := Rmin
|}.

(** [Math.atan2(y, x)] on real arguments: the angle of the point [(x, y)],
    in [(-PI, PI]]. *)
Definition atan2 (y x : R) : R :=
  if Rlt_dec 0 x then atan (y / x)
  else if Rlt_dec x 0 then
    if Rle_dec 0 y then atan (y / x) + PI else atan (y / x) - PI
  else if Rlt_dec 0 y then PI / 2
  else if Rlt_dec y 0 then - (PI / 2)
  else 0.

#[export] Instance trig : JSTrig R := {|
  Math_acos := acos; Math_atan2 := atan2; Math_PI := PI
|}.
End Exact.
Export (hints) Exact.

(** ** Loops and arrays *)

(** [for (let i = start; i < stop; i++) body], threading the mutated locals. *)
Definition for_range {S : Type} (start stop : nat) (body : nat -> S -> S)
    (init : S) : S :=
  fold_left (fun s i => body i s) (seq start (stop - start)) init.

(** [Array.prototype.slice().reverse().find(p)]: the last element satisfying
    [p]. *)
Definition find_last {T : Type} (p : T -> bool) (l : list T) : option T :=
  find p (rev l).

(** ** Data model ([angleAnalysisService.ts]) *)

Section Model.
Context {A : Type} `{JSNumber A}.
Local Open Scope js_scope.

Record AngleData : Type := mkAngleData {
  timestamp  : A;
  frameIndex : Z;
  angle      : A
}.

(** ** Cumulative rotation tracker *)

Definition ROTATION_NOISE_THRESHOLD : A := '20.

(** Body of the Pass-1 loop; the state is [netRotation].  The loops run
    over [1 <= i < length], so [data[i]] and [data[i-1]] are in range and the
    default [d0] of [nth] is never read. *)
Definition pass1_body (d0 : AngleData) (shoulderRotationData : list AngleData)
    (i : nat) (netRotation : A) : A :=
  let currentAngle := angle (nth i shoulderRotationData d0) in
  let previousAngle := angle (nth (i - 1) shoulderRotationData d0) in
  let angleDiff := currentAngle - previousAngle in
  let angleDiff := if angleDiff >? '180 then angleDiff - '360 else angleDiff in
  let angleDiff := if angleDiff <? - '180 then angleDiff + '360 else angleDiff in
  netRotation + angleDiff.

(** Body of the Pass-2 loop; the state is
    [(cumulativeRotation, cumulativeData)]. *)
Definition pass2_body (isCCW isCW : bool) (d0 : AngleData)
    (shoulderRotationData : list AngleData) (i : nat)
    (st : A * list AngleData) : A * list AngleData :=
  let '(cumulativeRotation, cumulativeData) := st in
  let currentAngle := angle (nth i shoulderRotationData d0) in
  let previousAngle := angle (nth (i - 1) shoulderRotationData d0) in
  let angleDiff := currentAngle - previousAngle in
  let angleDiff :=
    if isCCW then
      if angleDiff <? - ROTATION_NOISE_THRESHOLD then angleDiff + '360
      else angleDiff
    else if isCW then
      if angleDiff >? ROTATION_NOISE_THRESHOLD then angleDiff - '360
      else angleDiff
    else angleDiff in
  let cumulativeRotation := cumulativeRotation + angleDiff in
  (cumulativeRotation,
   cumulativeData ++
     [ {| timestamp := timestamp (nth i shoulderRotationData d0);
          frameIndex := frameIndex (nth i shoulderRotationData d0);
          angle := cumulativeRotation |} ]).

(** Pass 1 alone: the net rotation that decides the direction. *)
Definition netRotation (shoulderRotationData : list AngleData) : A :=
  match shoulderRotationData with
  | [] => '0
  | d0 :: _ =>
      for_range 1 (length shoulderRotationData)
        (pass1_body d0 shoulderRotationData) '0
  end.

Definition calculateCumulativeRotation (shoulderRotationData : list AngleData)
    : list AngleData :=
  match shoulderRotationData with
  | [] | [_] => []                     (* length < 2 *)
  | d0 :: _ =>
      let netRotation := netRotation shoulderRotationData in
      let isCCW := netRotation >? '0 in
      let isCW := netRotation <? '0 in
      let cumulativeData :=
        [ {| timestamp := timestamp d0; frameIndex := frameIndex d0;
             angle := '0 |} ] in
      snd (for_range 1 (length shoulderRotationData)
             (pass2_body isCCW isCW d0 shoulderRotationData)
             ('0, cumulativeData))
  end.

(** ** Gap filling *)

Record PoseLandmark : Type := mkPoseLandmark {
  lx : A;
  ly : A;
  lz : option A;             (* [z?: number] *)
  visibility : option A      (* [visibility?: number] *)
}.

(** A landmark array; an entry may be missing ([undefined]). *)
Definition Landmarks : Type := list (option PoseLandmark).

Record FrameAnalysis : Type := mkFrameAnalysis {
  f_timestamp : A;
  landmarks : option Landmarks;
  worldLandmarks : option Landmarks;
  processed : bool
}.

(** The loop of [interpolateAngleValue], with its [break]: scans
    [angleData] from index [i] on and returns the indices of
    [(beforeData, afterData)].  Objects are identified by their index. *)
Fixpoint surrounding (ts : A) (l : list AngleData) (i : nat)
    (beforeData : option nat) : option nat * option nat :=
  match l with
  | [] => (beforeData, None)
  | d :: rest =>
      let beforeData := if timestamp d <=? ts then Some i else beforeData in
      if timestamp d >=? ts then (beforeData, Some i)   (* break *)
      else surrounding ts rest (S i) beforeData
  end.

(** [v || null] on a number. *)
Definition or_null (v : A) : option A := if falsy v then None else Some v.

Definition interpolateAngleValue (angleData : list AngleData) (ts : A)
    : option A :=
  match angleData with
  | [] => None
  | [d] => Some (angle d)
  | d0 :: _ =>
      let get i := nth i angleData d0 in
      match surrounding ts angleData 0 None with
      | (None, Some a) => Some (angle (get a))
      | (Some b, None) => Some (angle (get b))
      | (Some b, Some a) =>
          if negb (Nat.eqb b a) then
            let beforeData := get b in
            let afterData := get a in
            let timeDiff := timestamp afterData - timestamp beforeData in
            let angleProgress := (ts - timestamp beforeData) / timeDiff in
            Some (angle beforeData
                  + (angle afterData - angle beforeData) * angleProgress)
          else or_null (angle (get b))
      | (None, None) => None
      end
  end.

(** The 10 ms tolerance of the exact-timestamp match. *)
Definition TIMESTAMP_TOLERANCE : A := decimal 1 100.

(** One iteration of the loop of [fillAngleDataGaps] over [allFrames]:
    what is pushed on [completeData] for the frame at position
    [frameIndex]. *)
Definition fill_frame (angleData : list AngleData) (frameIndex : nat)
    (frame : FrameAnalysis) : list AngleData :=
  let ts := f_timestamp frame in
  match find (fun data => Math_abs (timestamp data - ts) <? TIMESTAMP_TOLERANCE)
             angleData with
  | Some exactMatch => [exactMatch]
  | None =>
      match interpolateAngleValue angleData ts with
      | Some interpolatedAngle =>
          [ {| timestamp := ts; frameIndex := Z.of_nat frameIndex;
               angle := interpolatedAngle |} ]
      | None => []
      end
  end.

Definition fillAngleDataGaps (angleData : list AngleData)
    (allFrames : list FrameAnalysis) : list AngleData :=
  match angleData with
  | [] => angleData
  | _ =>
      let completeData :=
        flat_map (fun '(frameIndex, frame) => fill_frame angleData frameIndex frame)
                 (combine (seq 0 (length allFrames)) allFrames) in
      if (length angleData <? length completeData)%nat then completeData
      else angleData
  end.

(** The part of [analyzeAngles] that builds one channel: the frames that
    are processed and have world landmarks, each paired with its index in
    [analysis.frames]; the raw series of the channel's calculator; and the
    gap-filled series. *)
Definition usable (f : FrameAnalysis) : bool :=
  processed f && (match worldLandmarks f with Some _ => true | None => false end).

Definition usable_frames (frames : list FrameAnalysis)
    : list (nat * FrameAnalysis) :=
  filter (fun '(_, f) => usable f) (combine (seq 0 (length frames)) frames).

Definition raw_channel (calc : Landmarks -> option A)
    (frames : list FrameAnalysis) : list AngleData :=
  flat_map (fun '(frameIndex, frame) =>
              match worldLandmarks frame with
              | None => []
              | Some lms =>
                  match calc lms with
                  | Some a => [ {| timestamp := f_timestamp frame;
                                   frameIndex := Z.of_nat frameIndex;
                                   angle := a |} ]
                  | None => []
                  end
              end)
           (usable_frames frames).

Definition analyzeChannel (calc : Landmarks -> option A)
    (frames : list FrameAnalysis) : list AngleData :=
  fillAngleDataGaps (raw_channel calc frames) (map snd (usable_frames frames)).

(** ** Angle extraction *)

Record VideoAnalysis : Type := mkVideoAnalysis {
  frames : list FrameAnalysis;
  totalFrames : Z;
  processedFrames : Z;
  duration : A;
  fps : A;
  isComplete : bool
}.

Record AngleAnalysis : Type := mkAngleAnalysis {
  leftKneeFlexion : list AngleData;
  rightKneeFlexion : list AngleData;
  hipFlexion : list AngleData;
  headHipAlignment : list AngleData;
  weightBearingHipAngle : list AngleData;
  shoulderAngleToIce : list AngleData;
  shoulderRotation : list AngleData;
  shoulderCumulativeRotation : list AngleData
}.

Section Angles.
Context `{JSTrig A}.

Record Vector3 : Type := mkVector3 { vx : A; vy : A; vz : A }.

Definition calculateAngleBetweenVectors (vector1 vector2 : Vector3) : A :=
  let dot :=
    vx vector1 * vx vector2 + vy vector1 * vy vector2 + vz vector1 * vz vector2 in
  let mag1 :=
    Math_sqrt (vx vector1 * vx vector1 + vy vector1 * vy vector1
               + vz vector1 * vz vector1) in
  let mag2 :=
    Math_sqrt (vx vector2 * vx vector2 + vy vector2 * vy vector2
               + vz vector2 * vz vector2) in
  if (mag1 =? '0) || (mag2 =? '0) then '0
  else
    let cosAngle := dot / (mag1 * mag2) in
    let clampedCos := Math_max (- '1) (Math_min '1 cosAngle) in
    let angleRadians := Math_acos clampedCos in
    (angleRadians * '180) / Math_PI.

(** The value [calculateAngleBetweenVectors] hands to [Math.acos]
    ([clampedCos]); [None] when it returns early at the magnitude guard. *)
Definition clampedCosine (vector1 vector2 : Vector3) : option A :=
  let dot :=
    vx vector1 * vx vector2 + vy vector1 * vy vector2 + vz vector1 * vz vector2 in
  let mag1 :=
    Math_sqrt (vx vector1 * vx vector1 + vy vector1 * vy vector1
               + vz vector1 * vz vector1) in
  let mag2 :=
    Math_sqrt (vx vector2 * vx vector2 + vy vector2 * vy vector2
               + vz vector2 * vz vector2) in
  if (mag1 =? '0) || (mag2 =? '0) then None
  else
    let cosAngle := dot / (mag1 * mag2) in
    Some (Math_max (- '1) (Math_min '1 cosAngle)).

(** MediaPipe landmark indices. *)
Definition NOSE := 0%nat.
Definition LEFT_SHOULDER := 11%nat.
Definition RIGHT_SHOULDER := 12%nat.
Definition LEFT_HIP := 23%nat.
Definition RIGHT_HIP := 24%nat.
Definition LEFT_KNEE := 25%nat.
Definition RIGHT_KNEE := 26%nat.
Definition LEFT_ANKLE := 27%nat.
Definition RIGHT_ANKLE := 28%nat.

(** [landmarks[i]], [None] when the entry is missing or out of range. *)
Definition landmark (landmarks : Landmarks) (i : nat) : option PoseLandmark :=
  match nth_error landmarks i with
  | Some (Some l) => Some l
  | _ => None
  end.

(** [p.z || 0] *)
Definition z_or_0 (p : PoseLandmark) : A :=
  match lz p with
  | Some z => if falsy z then '0 else z
  | None => '0
  end.

(** The vector [{x: p.x - q.x, y: p.y - q.y, z: (p.z || 0) - (q.z || 0)}]. *)
Definition vector_from (q p : PoseLandmark) : Vector3 :=
  {| vx := lx p - lx q; vy := ly p - ly q; vz := z_or_0 p - z_or_0 q |}.

Definition kneeFlexion (hipIdx kneeIdx ankleIdx : nat) (landmarks : Landmarks)
    : option A :=
  match landmark landmarks hipIdx, landmark landmarks kneeIdx,
        landmark landmarks ankleIdx with
  | Some hip, Some knee, Some ankle =>
      let thighVector := vector_from knee hip in
      let shinVector := vector_from knee ankle in
      let angle := calculateAngleBetweenVectors thighVector shinVector in
      let kneeFlexion := '180 - angle in
      Some (Math_max '0 kneeFlexion)
  | _, _, _ => None
  end.

Definition calculateLeftKneeFlexion : Landmarks -> option A :=
  kneeFlexion LEFT_HIP LEFT_KNEE LEFT_ANKLE.

Definition calculateRightKneeFlexion : Landmarks -> option A :=
  kneeFlexion RIGHT_HIP RIGHT_KNEE RIGHT_ANKLE.

Definition calculateHipFlexion (landmarks : Landmarks) : option A :=
  match landmark landmarks LEFT_SHOULDER, landmark landmarks LEFT_HIP,
        landmark landmarks LEFT_KNEE with
  | Some shoulder, Some hip, Some knee =>
      let torsoVector := vector_from hip shoulder in
      let thighVector := vector_from hip knee in
      Some (calculateAngleBetweenVectors torsoVector thighVector)
  | _, _, _ => None
  end.

Definition calculateHeadHipAlignment (landmarks : Landmarks) : option A :=
  match landmark landmarks NOSE, landmark landmarks LEFT_HIP,
        landmark landmarks RIGHT_HIP with
  | Some nose, Some leftHip, Some rightHip =>
      let hipCenter :=
        {| vx := (lx leftHip + lx rightHip) / '2;
           vy := (ly leftHip + ly rightHip) / '2;
           vz := (z_or_0 leftHip + z_or_0 rightHip) / '2 |} in
      let headHipVector :=
        {| vx := lx nose - vx hipCenter;
           vy := ly nose - vy hipCenter;
           vz := z_or_0 nose - vz hipCenter |} in
      let verticalVector := {| vx := '0; vy := - '1; vz := '0 |} in
      Some (calculateAngleBetweenVectors headHipVector verticalVector)
  | _, _, _ => None
  end.

(** Shared by [calculateWeightBearingHipAngle] and
    [calculateShoulderAngleToIce]: the angle of the line from the left to the
    right landmark against the X axis. *)
Definition angleToHorizontal (leftIdx rightIdx : nat) (landmarks : Landmarks)
    : option A :=
  match landmark landmarks leftIdx, landmark landmarks rightIdx with
  | Some leftPoint, Some rightPoint =>
      let lineVector := vector_from leftPoint rightPoint in
      let horizontalVector := {| vx := '1; vy := '0; vz := '0 |} in
      Some (calculateAngleBetweenVectors lineVector horizontalVector)
  | _, _ => None
  end.

Definition calculateWeightBearingHipAngle : Landmarks -> option A :=
  angleToHorizontal LEFT_HIP RIGHT_HIP.

Definition calculateShoulderAngleToIce : Landmarks -> option A :=
  angleToHorizontal LEFT_SHOULDER RIGHT_SHOULDER.

Definition calculateShoulderRotation (landmarks : Landmarks) : option A :=
  match landmark landmarks LEFT_SHOULDER, landmark landmarks RIGHT_SHOULDER with
  | Some leftShoulder, Some rightShoulder =>
      let dx := lx rightShoulder - lx leftShoulder in
      let dz := z_or_0 rightShoulder - z_or_0 leftShoulder in
      let angleRadians := Math_atan2 dz dx in
      let angleDegrees := angleRadians * ('180 / Math_PI) in
      Some (if angleDegrees <? '0 then angleDegrees + '360 else angleDegrees)
  | _, _ => None
  end.

Definition analyzeAngles (analysis : VideoAnalysis) : AngleAnalysis :=
  let frames := frames analysis in
  let shoulderRotation := analyzeChannel calculateShoulderRotation frames in
  {| leftKneeFlexion := analyzeChannel calculateLeftKneeFlexion frames;
     rightKneeFlexion := analyzeChannel calculateRightKneeFlexion frames;
     hipFlexion := analyzeChannel calculateHipFlexion frames;
     headHipAlignment := analyzeChannel calculateHeadHipAlignment frames;
     weightBearingHipAngle :=
       analyzeChannel calculateWeightBearingHipAngle frames;
     shoulderAngleToIce := analyzeChannel calculateShoulderAngleToIce frames;
     shoulderRotation := shoulderRotation;
     shoulderCumulativeRotation := calculateCumulativeRotation shoulderRotation
  |}.

End Angles.

(** ** Jump window and metrics engine ([jumpMetricsService.ts]) *)

Record JumpMetrics : Type := mkJumpMetrics {
  airTime : option A;
  takeoffFrame : option Z;
  landingFrame : option Z;
  rotations : option A;
  maxHeight : option A
}.

Record Markers : Type := mkMarkers {
  m_takeoffFrame : option A;
  m_takeoffTime : option A;
  m_landingFrame : option A;
  m_landingTime : option A
}.

Record ManualMarkers : Type := mkManualMarkers {
  reference : Markers;
  user : Markers
}.

Inductive VideoType : Type := Reference | User.

Definition markers_of (manualMarkers : ManualMarkers) (videoType : VideoType)
    : Markers :=
  match videoType with
  | Reference => reference manualMarkers
  | User => user manualMarkers
  end.

(** What [computeJumpMetrics] throws. *)
Inductive JumpError : Type :=
| AnalysisIncomplete      (* 'Analysis must be complete to compute jump metrics' *)
| MarkersRequired         (* 'Manual markers are required to compute jump metrics' *)
| FramesUnspecified       (* 'Both takeoff and landing frames must be specified ...' *)
| FramesNotFound          (* 'Could not find analysis frames for takeoff/landing times' *)
| InvalidFrameSequence (takeoff landing : Z)
                          (* 'Invalid frame sequence: takeoff (..) must be before landing (..)' *)
| TypeError.              (* reading [.timestamp] of [undefined] *)

Definition ROTATION_PADDING_FRAMES : Z := 2.

(** Body of the loop of [findClosestFrameByTime]; the state is
    [(closestIndex, minTimeDiff)]. *)
Definition closest_body (d0 : FrameAnalysis) (frames : list FrameAnalysis)
    (targetTime : A) (i : nat) (st : nat * A) : nat * A :=
  let '(closestIndex, minTimeDiff) := st in
  let timeDiff := Math_abs (f_timestamp (nth i frames d0) - targetTime) in
  if timeDiff <? minTimeDiff then (i, timeDiff) else (closestIndex, minTimeDiff).

Definition findClosestFrameByTime (frames : list FrameAnalysis)
    (targetTime : A) : option Z :=
  match frames with
  | [] => None
  | f0 :: _ =>
      let closestIndex := 0%nat in
      let minTimeDiff := Math_abs (f_timestamp f0 - targetTime) in
      Some (Z.of_nat
              (fst (for_range 1 (length frames)
                      (closest_body f0 frames targetTime)
                      (closestIndex, minTimeDiff))))
  end.

Definition calculateJumpHeight (airTime : A) : option A :=
  if airTime <=? '0 then None
  else
    let gravity := decimal 981 100 in
    let height := (gravity * airTime * airTime) / '8 in
    Some height.

(** [angleAnalysis] is [None] when the optional argument is left out; the
    field [shoulderCumulativeRotation] is an array by its type. *)
Definition extractRotationFromAngleAnalysis
    (angleAnalysis : option AngleAnalysis) (takeoffFrame landingFrame : Z)
    : option A :=
  match angleAnalysis with
  | None => None
  | Some angleAnalysis =>
      if (length (shoulderCumulativeRotation angleAnalysis) =? 0)%nat then None
      else
        let rotationStartFrame :=
          Z.max 0 (takeoffFrame - ROTATION_PADDING_FRAMES) in
        let rotationEndFrame := (landingFrame + ROTATION_PADDING_FRAMES)%Z in
        let startRotationData :=
          find (fun data => (frameIndex data >=? rotationStartFrame)%Z)
               (shoulderCumulativeRotation angleAnalysis) in
        let endRotationData :=
          find_last (fun data => (frameIndex data <=? rotationEndFrame)%Z)
                    (shoulderCumulativeRotation angleAnalysis) in
        match startRotationData, endRotationData with
        | Some startRotationData, Some endRotationData =>
            let totalRotationDegrees :=
              Math_abs (angle endRotationData - angle startRotationData) in
            let rotations := totalRotationDegrees / '360 in
            Some rotations
        | _, _ => None
        end
  end.

(** A thrown [Error] is the left summand.  The debug [console.log] has no
    effect on the result and is left out. *)
Definition computeJumpMetrics (analysis : option VideoAnalysis)
    (manualMarkers : option ManualMarkers) (videoType : VideoType)
    (angleAnalysis : option AngleAnalysis) : JumpError + JumpMetrics :=
  match analysis with
  | None => inl AnalysisIncomplete
  | Some analysis =>
  if negb (isComplete analysis) then inl AnalysisIncomplete else
  match manualMarkers with
  | None => inl MarkersRequired
  | Some manualMarkers =>
  let markers := markers_of manualMarkers videoType in
  match m_takeoffFrame markers, m_landingFrame markers with
  | Some rawTakeoffFrame, Some rawLandingFrame =>
      let sampleVideoFps := '30 in
      let takeoffTime := rawTakeoffFrame / sampleVideoFps in
      let landingTime := rawLandingFrame / sampleVideoFps in
      match findClosestFrameByTime (frames analysis) takeoffTime,
            findClosestFrameByTime (frames analysis) landingTime with
      | Some takeoffFrame, Some landingFrame =>
          if (takeoffFrame >=? landingFrame)%Z
          then inl (InvalidFrameSequence takeoffFrame landingFrame)
          else
            match nth_error (frames analysis) (Z.to_nat landingFrame),
                  nth_error (frames analysis) (Z.to_nat takeoffFrame) with
            | Some landing, Some takeoff =>
                let airTime := f_timestamp landing - f_timestamp takeoff in
                let rotations :=
                  extractRotationFromAngleAnalysis angleAnalysis
                    takeoffFrame landingFrame in
                let maxHeight := calculateJumpHeight airTime in
                inr {| airTime := Some airTime;
                       takeoffFrame := Some takeoffFrame;
                       landingFrame := Some landingFrame;
                       rotations := rotations;
                       maxHeight := maxHeight |}
            | _, _ => inl TypeError
            end
      | _, _ => inl FramesNotFound
      end
  | _, _ => inl FramesUnspecified
  end
  end
  end.

End Model.

Arguments VideoAnalysis A : clear implicits.
Arguments JumpMetrics A : clear implicits.
Arguments Markers A : clear implicits.
Arguments ManualMarkers A : clear implicits.

Arguments AngleData A : clear implicits.
Arguments Vector3 A : clear implicits.
Arguments AngleAnalysis A : clear implicits.
Arguments PoseLandmark A : clear implicits.
Arguments Landmarks A : clear implicits.
Arguments FrameAnalysis A : clear implicits.

(** * Further code of the same services *)


Module ExactRound.

End ExactRound.
Export (hints) ExactRound.

Section MoreModel.
Context {A : Type} `{JSNumber A}.
Local Open Scope js_scope.

(** ** [smoothAngleData] ([angleAnalysisService.ts])

    The window size is a whole number of samples (3 by default), so
    [Math.floor(windowSize / 2)] is the integer quotient. *)

(** [angleData.slice(start, end)] for [0 <= start], [end <= length]. *)
Definition slice {T : Type} (l : list T) (start stop : nat) : list T :=
  firstn (stop - start) (skipn start l).

(** One iteration of the loop: the sample pushed for index [i]. *)
Definition smooth_at (angleData : list (AngleData A)) (windowSize : nat)
    (d0 : AngleData A) (i : nat) : AngleData A :=
  let half := (windowSize / 2)%nat in
  let start := Z.to_nat (Z.max 0 (Z.of_nat i - Z.of_nat half)) in
  let stop := Nat.min (length angleData) (i + half + 1) in
  let window := slice angleData start stop in
  let avgAngle :=
    fold_left (fun sum data => sum + angle data) window '0
    / '(Z.of_nat (length window)) in
  {| timestamp := timestamp (nth i angleData d0);
     frameIndex := frameIndex (nth i angleData d0);
     angle := avgAngle |}.

Definition smoothAngleData (angleData : list (AngleData A)) (windowSize : nat)
    : list (AngleData A) :=
  if (length angleData <? windowSize)%nat then angleData
  else
    match angleData with
    | [] => []
    | d0 :: _ =>
        for_range 0 (length angleData)
          (fun i smoothed => smoothed ++ [smooth_at angleData windowSize d0 i])
          []
    end.

(** ** [countRotationsUnwrapped] ([jumpMetricsService.ts], legacy) *)

(** Body of the loop; the state is [(totalRotation, unwrapped)]. *)
Definition unwrapped_body (a0 : A) (angles : list A) (i : nat)
    (st : A * list A) : A * list A :=
  let '(totalRotation, unwrapped) := st in
  let diff := nth i angles a0 - nth (i - 1) angles a0 in
  let diff :=
    if diff >? '180 then diff - '360
    else if diff <? - '180 then diff + '360
    else diff in
  (totalRotation + diff, unwrapped ++ [nth (i - 1) unwrapped a0 + diff]).

Definition countRotationsUnwrapped (angles : list A) : option A :=
  if (length angles <? 3)%nat then None
  else
    match angles with
    | [] => None
    | a0 :: _ =>
        let totalRotation :=
          fst (for_range 1 (length angles) (unwrapped_body a0 angles)
                 ('0, [a0])) in
        let rotations := Math_abs totalRotation / '360 in
        Some rotations
    end.

(** ** [frameToTimestamp], [timestampToFrame] ([utils/frameToTimestamp.ts]) *)



(** ** [compareMetrics] ([manualJumpMetricsService.ts]) *)

Inductive Improvement : Type := Better | Worse | Same.

Record MetricComparison : Type := mkMetricComparison {
  c_reference : option A;
  c_user : option A;
  c_difference : option A;
  c_improvement : option Improvement
}.

Record Comparison : Type := mkComparison {
  cmp_airTime : MetricComparison;
  cmp_rotations : MetricComparison;
  cmp_height : MetricComparison
}.

(** A nullable number used as a condition: null, 0 and NaN are falsy. *)
Definition truthy (v : option A) : bool :=
  match v with
  | Some x => negb (falsy x)
  | None => false
  end.

(** One block of [compareMetrics]: the entry of a metric, with the
    threshold of its block. *)
Definition compare_entry (threshold : A) (referenceValue userValue : option A)
    : MetricComparison :=
  match referenceValue, userValue with
  | Some r, Some u =>
      if truthy referenceValue && truthy userValue then
        let difference := u - r in
        {| c_reference := referenceValue; c_user := userValue;
           c_difference := Some difference;
           c_improvement :=
             Some (if difference >? threshold then Better
                   else if difference <? - threshold then Worse
                   else Same) |}
      else
        {| c_reference := referenceValue; c_user := userValue;
           c_difference := None; c_improvement := None |}
  | _, _ =>
      {| c_reference := referenceValue; c_user := userValue;
         c_difference := None; c_improvement := None |}
  end.

Definition compareMetrics (referenceMetrics userMetrics : JumpMetrics A)
    : Comparison :=
  {| cmp_airTime :=
       compare_entry (decimal 5 100)
         (airTime referenceMetrics) (airTime userMetrics);
     cmp_rotations :=
       compare_entry (decimal 1 10)
         (rotations referenceMetrics) (rotations userMetrics);
     cmp_height :=
       compare_entry (decimal 2 100)
         (maxHeight referenceMetrics) (maxHeight userMetrics) |}.

(** ** The metrics a video gets in the store ([videoAnalysisService.ts])

    The part of [analyzeBothVideos] that computes the angles of one video
    and then its metrics, with the [catch] that stores the all-null bundle. *)

Definition emptyMetrics : JumpMetrics A :=
  {| airTime := None; takeoffFrame := None; landingFrame := None;
     rotations := None; maxHeight := None |}.

Definition storedMetrics `{JSTrig A} (analysis : VideoAnalysis A)
    (manualMarkers : ManualMarkers A) (videoType : VideoType) : JumpMetrics A :=
  let angles := analyzeAngles analysis in
  match computeJumpMetrics (Some analysis) (Some manualMarkers) videoType
          (Some angles) with
  | inr metrics => metrics
  | inl _ => emptyMetrics
  end.

End MoreModel.

Arguments MetricComparison A : clear implicits.
Arguments Comparison A : clear implicits.


(** * The marker-based service ([manualJumpMetricsService.ts])

    [computeJumpMetrics] of this service reads the air time off the marker
    times.  Its private [calculateRotations] is not embedded: it is a
    parameter of the model, called as the source calls it. *)

Module ManualJumpMetricsService.
Section Service.
Context {A : Type} `{JSNumber A}.
Variable calculateRotations : VideoAnalysis A -> A -> A -> option A.
Local Open Scope js_scope.

(** The bundle this service returns: the frames are the marker values. *)
Record Bundle : Type := mkBundle {
  b_airTime : option A;
  b_takeoffFrame : option A;
  b_landingFrame : option A;
  b_rotations : option A;
  b_maxHeight : option A
}.

Definition nullBundle : Bundle :=
  {| b_airTime := None; b_takeoffFrame := None; b_landingFrame := None;
     b_rotations := None; b_maxHeight := None |}.

Definition computeJumpMetrics (markers : ManualMarkers A)
    (videoType : VideoType) (analysis : option (VideoAnalysis A)) : Bundle :=
  let videoMarkers := markers_of markers videoType in
  if negb (truthy (m_takeoffTime videoMarkers))
     || negb (truthy (m_landingTime videoMarkers))
     || negb (truthy (m_takeoffFrame videoMarkers))
     || negb (truthy (m_landingFrame videoMarkers))
  then nullBundle
  else
    match m_takeoffTime videoMarkers, m_landingTime videoMarkers,
          m_takeoffFrame videoMarkers, m_landingFrame videoMarkers with
    | Some takeoffTime, Some landingTime, Some takeoffFrame, Some landingFrame =>
        let airTime := landingTime - takeoffTime in
        let maxHeight := calculateJumpHeight airTime in
        let rotations :=
          match analysis with
          | Some analysis =>
              if isComplete analysis
              then calculateRotations analysis takeoffFrame landingFrame
              else None
          | None => None
          end in
        {| b_airTime := Some airTime;
           b_takeoffFrame := Some takeoffFrame;
           b_landingFrame := Some landingFrame;
           b_rotations := rotations;
           b_maxHeight := maxHeight |}
    | _, _, _, _ => nullBundle
    end.

End Service.
Arguments Bundle A : clear implicits.
End ManualJumpMetricsService.

(** * Specification-level definitions *)

(** ** The loops, read as folds over consecutive samples *)

(** A loop [for i in 1 .. n-1] whose body reads only [l[i]] and [l[i-1]]
    is a fold over the consecutive pairs of [l]. *)
Fixpoint fold_pairs {T S : Type} (step : T -> T -> S -> S) (prev : T)
    (rest : list T) (s : S) : S :=
  match rest with
  | [] => s
  | cur :: rest' => fold_pairs step cur rest' (step cur prev s)
  end.

Section LoopFreeDefs.
Context {A : Type} `{JSNumber A}.
Local Open Scope js_scope.

(** The code's Pass-1 wraparound: two consecutive [if]s. *)
Definition wrap_code (angleDiff : A) : A :=
  let angleDiff := if angleDiff >? '180 then angleDiff - '360 else angleDiff in
  if angleDiff <? - '180 then angleDiff + '360 else angleDiff.

(** The code's Pass-2 direction forcing. *)
Definition force_code (isCCW isCW : bool) (angleDiff : A) : A :=
  if isCCW then
    if angleDiff <? - ROTATION_NOISE_THRESHOLD then angleDiff + '360
    else angleDiff
  else if isCW then
    if angleDiff >? ROTATION_NOISE_THRESHOLD then angleDiff - '360
    else angleDiff
  else angleDiff.

Definition pass1_step (cur prev : AngleData A) (net : A) : A :=
  net + wrap_code (angle cur - angle prev).

Definition pass2_step (isCCW isCW : bool) (cur prev : AngleData A)
    (st : A * list (AngleData A)) : A * list (AngleData A) :=
  let c := fst st + force_code isCCW isCW (angle cur - angle prev) in
  (c, snd st ++ [ {| timestamp := timestamp cur; frameIndex := frameIndex cur;
                     angle := c |} ]).

End LoopFreeDefs.

(** ** The two-pass algorithm as the specification words it

    Over the reals: wrapped deltas, their sum, the dominant direction, the
    direction-locked deltas and their running sums. *)

Module TwoPassReference.

(** Frame-to-frame deltas [a(i) - a(i-1)] of a series of angles. *)
Definition deltas (angles : list R) : list R :=
  map (fun '(prev, cur) => cur - prev)%R (combine angles (tl angles)).

(** The standard wraparound rule: [d > 180 -> d - 360], [d < -180 -> d + 360]. *)
Definition wrap180 (d : R) : R :=
  if Rlt_dec 180 d then d - 360
  else if Rlt_dec d (-180) then d + 360
  else d.

Definition Rsum (l : list R) : R := fold_right Rplus 0%R l.

Inductive Direction : Type := CCW | CW | Undetermined.

(** CCW if the net rotation is positive, CW if it is negative. *)
Definition classify (net : R) : Direction :=
  if Rlt_dec 0 net then CCW
  else if Rlt_dec net 0 then CW
  else Undetermined.

(** Pass 1: the net rotation, the sum of the wrapped deltas. *)
Definition net_rotation (angles : list R) : R :=
  Rsum (map wrap180 (deltas angles)).

(** Direction locking of one raw delta, with the 20 degree noise threshold. *)
Definition lock (dir : Direction) (d : R) : R :=
  match dir with
  | CCW => if Rlt_dec d (-20) then d + 360 else d
  | CW => if Rlt_dec 20 d then d - 360 else d
  | Undetermined => d
  end.

(** Running sums [0, d1, d1 + d2, ...] of a list of deltas. *)
Definition prefix_sums (ds : list R) : list R :=
  map (fun k => Rsum (firstn k ds)) (seq 0 (S (length ds))).

(** Pass 2: 0 at the first sample, then the running sum of locked deltas. *)
Definition cumulative (dir : Direction) (angles : list R) : list R :=
  prefix_sums (map (lock dir) (deltas angles)).

(** The samples of [data], each with its angle replaced. *)
Definition relabel (data : list (AngleData R)) (values : list R)
    : list (AngleData R) :=
  map (fun '(d, c) => {| timestamp := timestamp d; frameIndex := frameIndex d;
                         angle := c |})
      (combine data values).

Definition two_pass (data : list (AngleData R)) : list (AngleData R) :=
  let angles := map (fun d => angle d) data in
  let dir := classify (net_rotation angles) in
  relabel data (cumulative dir angles).

End TwoPassReference.

(** ** The two encodings of a circular signal *)



(** An angle of the [0, 360) encoding. *)
Definition in_turn (a : R) : Prop := (0 <= a < 360)%R.



(** ** The expanded rotation window, as the specification words it *)

Section WindowSpec.
Context {A : Type} `{JSNumber A}.

(** The nearest sample at or after frame [start]: the least frame index
    among the samples with [start <= frameIndex] (the earliest such sample
    on a tie). *)
Definition nearest_at_or_after (start : Z) (samples : list (AngleData A))
    : option (AngleData A) :=
  fold_left
    (fun best d =>
       if (start <=? frameIndex d)%Z then
         match best with
         | None => Some d
         | Some b => if (frameIndex d <? frameIndex b)%Z then Some d else best
         end
       else best)
    samples None.

(** The nearest sample at or before frame [stop]: the greatest frame index
    among the samples with [frameIndex <= stop] (the latest such sample on a
    tie). *)
Definition nearest_at_or_before (stop : Z) (samples : list (AngleData A))
    : option (AngleData A) :=
  fold_left
    (fun best d =>
       if (frameIndex d <=? stop)%Z then
         match best with
         | None => Some d
         | Some b => if (frameIndex b <=? frameIndex d)%Z then Some d else best
         end
       else best)
    samples None.

(** [|cumulative(endFrame) - cumulative(startFrame)| / 360] over the window
    from [takeoff - 2] (clamped to 0) through [landing + 2] (clamped to the
    last index of the frame sequence). *)
Definition window_rotation_count (samples : list (AngleData A))
    (lastIndex takeoff landing : Z) : option A :=
  let startFrame := Z.max 0 (takeoff - 2) in
  let endFrame := Z.min lastIndex (landing + 2) in
  match nearest_at_or_after startFrame samples,
        nearest_at_or_before endFrame samples with
  | Some s, Some e => Some (Math_abs (angle e - angle s) / '360)%js
  | _, _ => None
  end.

(** Samples in the order of their frames. *)
Definition frame_ordered (samples : list (AngleData A)) : Prop :=
  StronglySorted (fun a b => (frameIndex a <= frameIndex b)%Z) samples.

(** The markers of [videoType] resolve to the analysis frames [takeoff] and
    [landing]: the analysis is complete, both marker frames are set, and
    these are the closest analysis frames to the marker times at 30 fps. *)
Definition resolves (analysis : VideoAnalysis A)
    (manualMarkers : ManualMarkers A) (videoType : VideoType)
    (takeoff landing : Z) : Prop :=
  isComplete analysis = true /\
  exists rawTakeoffFrame rawLandingFrame,
    m_takeoffFrame (markers_of manualMarkers videoType) = Some rawTakeoffFrame /\
    m_landingFrame (markers_of manualMarkers videoType) = Some rawLandingFrame /\
    findClosestFrameByTime (frames analysis) (rawTakeoffFrame / '30)%js
      = Some takeoff /\
    findClosestFrameByTime (frames analysis) (rawLandingFrame / '30)%js
      = Some landing.

End WindowSpec.

(** ** Gap filling, as the specification words it *)

Section GapFillSpec.
Local Open Scope R_scope.

(** [v] is the value at time [t] read off the raw series: the first known
    value before the series' range, the last known value after it, and in
    between the linear interpolation of the two adjacent raw samples around
    [t] (with timestamps in order, the nearest earlier and later samples). *)
Definition interpolated (raw : list (AngleData R)) (t v : R) : Prop :=
  (exists first rest,
     raw = first :: rest /\ t < timestamp first /\ v = angle first) \/
  (exists init final,
     raw = init ++ [final] /\ timestamp final < t /\ v = angle final) \/
  (exists pre p q post,
     raw = pre ++ p :: q :: post /\ timestamp p < t < timestamp q /\
     v = angle p + (angle q - angle p)
                   * ((t - timestamp p) / (timestamp q - timestamp p))).

(** [out] is what the gap-filled series holds for [frame]: a raw sample
    within 10 ms of the frame's timestamp, or, when there is none, a sample
    at the frame's timestamp with the interpolated value. *)
Definition filled (raw : list (AngleData R)) (frame : FrameAnalysis R)
    (out : AngleData R) : Prop :=
  (In out raw /\ Rabs (timestamp out - f_timestamp frame) < 1 / 100) \/
  ((forall d, In d raw ->
              ~ Rabs (timestamp d - f_timestamp frame) < 1 / 100) /\
   timestamp out = f_timestamp frame /\
   interpolated raw (f_timestamp frame) (angle out)).

End GapFillSpec.

(** What one usable frame contributes to the raw series of a channel. *)
Definition raw_sample (calc : Landmarks R -> option R)
    (x : nat * FrameAnalysis R) : list (AngleData R) :=
  match worldLandmarks (snd x) with
  | None => []
  | Some lms =>
      match calc lms with
      | Some a => [ {| timestamp := f_timestamp (snd x);
                       frameIndex := Z.of_nat (fst x); angle := a |} ]
      | None => []
      end
  end.

(** The gap-filled channels of [analyzeAngles], each with its calculator. *)
Definition gap_filled_channels {A : Type} `{JSNumber A} `{JSTrig A}
    : list ((Landmarks A -> option A) * (AngleAnalysis A -> list (AngleData A))) :=
  [ (calculateLeftKneeFlexion, fun a => leftKneeFlexion a);
    (calculateRightKneeFlexion, fun a => rightKneeFlexion a);
    (calculateHipFlexion, fun a => hipFlexion a);
    (calculateHeadHipAlignment, fun a => headHipAlignment a);
    (calculateWeightBearingHipAngle, fun a => weightBearingHipAngle a);
    (calculateShoulderAngleToIce, fun a => shoulderAngleToIce a);
    (calculateShoulderRotation, fun a => shoulderRotation a) ].

(** ** Angles between vectors *)

(** [|v|], as [calculateAngleBetweenVectors] computes it. *)
Definition magnitude {A : Type} `{JSNumber A} (v : Vector3 A) : A :=
  Math_sqrt (vx v * vx v + vy v * vy v + vz v * vz v)%js.

(** The angle calculators built on [calculateAngleBetweenVectors]. *)
Definition vector_angle_calculators {A : Type} `{JSNumber A} `{JSTrig A}
    : list (Landmarks A -> option A) :=
  [ calculateLeftKneeFlexion; calculateRightKneeFlexion; calculateHipFlexion;
    calculateHeadHipAlignment; calculateWeightBearingHipAngle;
    calculateShoulderAngleToIce ].

(** ** Concrete inputs *)

(** A series sampled at 30 fps with the given whole-degree angles:
    sample [i] has timestamp [i/30] and frame index [i]. *)
Definition series {A : Type} `{JSNumber A} (angles : list Z)
    : list (AngleData A) :=
  map (fun '(i, a) => {| timestamp := ('(Z.of_nat i) / '30)%js;
                         frameIndex := Z.of_nat i;
                         angle := ofZ a |})
      (combine (seq 0 (length angles)) angles).

(** An angle analysis holding only the shoulder channels. *)
Definition shoulder_analysis {A : Type} `{JSNumber A}
    (shoulderRotationData : list (AngleData A)) : AngleAnalysis A :=
  {| leftKneeFlexion := []; rightKneeFlexion := []; hipFlexion := [];
     headHipAlignment := []; weightBearingHipAngle := [];
     shoulderAngleToIce := [];
     shoulderRotation := shoulderRotationData;
     shoulderCumulativeRotation :=
       calculateCumulativeRotation shoulderRotationData |}.

(** The angle of the last sample of a series. *)
Definition final_angle {A : Type} (l : list (AngleData A)) : option A :=
  match rev l with
  | d :: _ => Some (angle d)
  | [] => None
  end.

(** A uniform counter-clockwise rotation: [n] samples, each step +36
    degrees, encoded in [0, 360) (the angle of sample [i] is
    [36 * i mod 360]). *)
Definition uniform_ccw {A : Type} `{JSNumber A} (n : nat) : list (AngleData A) :=
  series (map (fun i => (36 * Z.of_nat i) mod 360)%Z (seq 0 n)).

(** A CCW motion with one 10 degree step backwards across the 0/360
    boundary, encoded in [0, 360). *)
Definition wobble_360 : list (AngleData PrimFloat.float) :=
  series [5; 355; 100]%Z.

(** A CCW motion without backward steps, encoded in [0, 360). *)
Definition steady_360 : list (AngleData R) :=
  series [10; 100; 200; 300; 30]%Z.

(** An analysis of [n] frames at 30 fps without landmarks, complete. *)
Definition blank_analysis {A : Type} `{JSNumber A} (n : nat) : VideoAnalysis A :=
  {| frames := map (fun i => {| f_timestamp := ('(Z.of_nat i) / '30)%js;
                                landmarks := None; worldLandmarks := None;
                                processed := true |}) (seq 0 n);
     totalFrames := Z.of_nat n; processedFrames := Z.of_nat n;
     duration := ('(Z.of_nat n) / '30)%js; fps := ('30)%js;
     isComplete := true |}.

(** Markers at the given frames of a 30 fps video, for both roles. *)
Definition markers_at {A : Type} `{JSNumber A} (takeoff landing : Z)
    : ManualMarkers A :=
  let m := {| m_takeoffFrame := Some (ofZ takeoff);
              m_takeoffTime := Some ('takeoff / '30)%js;
              m_landingFrame := Some (ofZ landing);
              m_landingTime := Some ('landing / '30)%js |} in
  {| reference := m; user := m |}.

(** Ten frames at 30 fps, on binary64 floats. *)
Definition ten_frames : VideoAnalysis PrimFloat.float := blank_analysis 10.


(** An angle analysis whose cumulative rotation has samples at frames 0, 4
    and 9 only. *)
Definition sparse_rotation : AngleAnalysis PrimFloat.float :=
  {| leftKneeFlexion := []; rightKneeFlexion := []; hipFlexion := [];
     headHipAlignment := []; weightBearingHipAngle := [];
     shoulderAngleToIce := []; shoulderRotation := [];
     shoulderCumulativeRotation :=
       [ {| timestamp := decimal 0 30; frameIndex := 0; angle := ofZ 0 |};
         {| timestamp := decimal 4 30; frameIndex := 4; angle := ofZ 400 |};
         {| timestamp := decimal 9 30; frameIndex := 9; angle := ofZ 900 |} ] |}.

Section FloatInputs.
Import Floats.PrimFloat.

(** A vector whose squared magnitude overflows binary64, and one with a NaN
    component. *)
Definition huge_vector : Vector3 float :=
  {| vx := 1e200%float; vy := 0%float; vz := 0%float |}.

Definition nan_vector : Vector3 float :=
  {| vx := nan; vy := 0%float; vz := 0%float |}.

Definition unit_x : Vector3 float :=
  {| vx := 1%float; vy := 0%float; vz := 0%float |}.

End FloatInputs.

(** World landmarks (33 entries) of a leg whose hip, knee and ankle are on
    one line, the ankle at height [y]; and landmarks with the left hip only. *)
Definition straight_leg (y : R) : Landmarks R :=
  map (fun i => if Nat.eqb i LEFT_HIP then Some (mkPoseLandmark 0%R 0%R None None)
                else if Nat.eqb i LEFT_KNEE then Some (mkPoseLandmark 0%R 1%R None None)
                else if Nat.eqb i LEFT_ANKLE then Some (mkPoseLandmark 0%R y None None)
                else None)
      (seq 0 33).

Definition hip_only : Landmarks R :=
  map (fun i => if Nat.eqb i LEFT_HIP then Some (mkPoseLandmark 0%R 0%R None None)
                else None)
      (seq 0 33).

(** A complete analysis of one processed frame whose world landmarks hold
    the left hip only: no angle can be computed for it. *)
Definition one_frame_without_joints : VideoAnalysis R :=
  {| frames := [ {| f_timestamp := 0%R; landmarks := None;
                    worldLandmarks := Some hip_only; processed := true |} ];
     totalFrames := 1; processedFrames := 1;
     duration := (1 / 30)%R; fps := 30%R; isComplete := true |}.

(** Three processed frames at 30 fps; the knee and ankle landmarks are
    missing in the middle one. *)
Definition knee_dropout : list (FrameAnalysis R) :=
  [ {| f_timestamp := 0%R; landmarks := None;
       worldLandmarks := Some (straight_leg 2); processed := true |};
    {| f_timestamp := (1 / 30)%R; landmarks := None;
       worldLandmarks := Some hip_only; processed := true |};
    {| f_timestamp := (2 / 30)%R; landmarks := None;
       worldLandmarks := Some (straight_leg 2); processed := true |} ].

Definition knee_dropout_analysis : VideoAnalysis R :=
  {| frames := knee_dropout; totalFrames := 3; processedFrames := 3;
     duration := (3 / 30)%R; fps := 30%R; isComplete := true |}.

(** ** Proof automation *)

(** Unfolds the arithmetic of [JSNumber] at the reals. *)
Ltac exact_arith :=
  cbn [ofZ nadd nsub nmul ndiv nopp nltb nleb neqb Math_abs Math_sqrt
       Math_max Math_min Exact.number Math_acos Math_atan2 Math_PI
       Exact.trig] in *;
  unfold Exact.ltb, Exact.leb, Exact.eqb in *.

(** Decides the comparisons left in the goal by linear arithmetic. *)
Ltac split_cmp :=
  repeat match goal with
    | |- context [Rlt_dec ?a ?b] => destruct (Rlt_dec a b)
    | |- context [Rle_dec ?a ?b] => destruct (Rle_dec a b)
    end;
  first [lra | reflexivity | exfalso; lra | idtac].

(** ** Transformations of a series *)

(** The labels of a sample: its timestamp and frame index. *)
Definition labels {A : Type} (d : AngleData A) : A * Z :=
  (timestamp d, frameIndex d).

(** The series with every angle replaced by its image under [f]. *)
Definition map_angles {A : Type} (f : A -> A) (data : list (AngleData A))
    : list (AngleData A) :=
  map (fun d => {| timestamp := timestamp d; frameIndex := frameIndex d;
                   angle := f (angle d) |}) data.

(** The same motion read from a reference direction turned by [c] degrees,
    and the mirrored motion. *)
Definition offset_angles (c : R) : list (AngleData R) -> list (AngleData R) :=
  map_angles (fun a => a + c)%R.

Definition mirror_angles : list (AngleData R) -> list (AngleData R) :=
  map_angles Ropp.


(** The opposite direction. *)
Definition opposite (dir : TwoPassReference.Direction)
    : TwoPassReference.Direction :=
  match dir with
  | TwoPassReference.CCW => TwoPassReference.CW
  | TwoPassReference.CW => TwoPassReference.CCW
  | TwoPassReference.Undetermined => TwoPassReference.Undetermined
  end.


(** [c] is the raw displacement [a - a0] up to a whole number of turns. *)
Definition whole_turns_from (a0 a c : R) : Prop :=
  exists k : Z, (c = a - a0 + 360 * IZR k)%R.


(** ** Gap filling: further notions *)

(** The calculator yields an angle for every frame that has world
    landmarks. *)
Definition always_defined {A : Type} (calc : Landmarks A -> option A)
    (frames : list (FrameAnalysis A)) : Prop :=
  forall f lms, In f frames -> worldLandmarks f = Some lms -> calc lms <> None.

(** Two processed frames at 30 fps, both with the left leg tracked. *)
Definition tracked_leg : list (FrameAnalysis R) :=
  [ {| f_timestamp := 0%R; landmarks := None;
       worldLandmarks := Some (straight_leg 2); processed := true |};
    {| f_timestamp := (1 / 30)%R; landmarks := None;
       worldLandmarks := Some (straight_leg 3); processed := true |} ].

(** The indices in [analysis.frames] of the usable frames. *)
Definition usable_indices {A : Type} (frames : list (FrameAnalysis A))
    : list Z :=
  map (fun x => Z.of_nat (fst x)) (usable_frames frames).


(** A property of angles kept by linear interpolation between two values
    that have it. *)
Definition kept_by_interpolation (P : R -> Prop) : Prop :=
  forall p q l : R, P p -> P q -> (0 < l < 1)%R -> P (p + (q - p) * l)%R.



(** Frames in strictly increasing order of their timestamps, as a video
    decoded front to back gives them. *)
Definition timestamps_increase (frames : list (FrameAnalysis R)) : Prop :=
  StronglySorted (fun f g => (f_timestamp f < f_timestamp g)%R) frames.


(** World landmarks holding both shoulders only: the left one at the origin,
    the right one at [(x, 0, z)]. *)
Definition shoulders (x z : R) : Landmarks R :=
  map (fun i => if Nat.eqb i LEFT_SHOULDER
                then Some (mkPoseLandmark 0%R 0%R (Some 0%R) None)
                else if Nat.eqb i RIGHT_SHOULDER
                then Some (mkPoseLandmark x 0%R (Some z) None)
                else None)
      (seq 0 33).

(** Three processed frames at 30 fps with the shoulders tracked in each. *)
Definition turning_shoulders : VideoAnalysis R :=
  {| frames :=
       [ {| f_timestamp := 0%R; landmarks := None;
            worldLandmarks := Some (shoulders 1 0); processed := true |};
         {| f_timestamp := (1 / 30)%R; landmarks := None;
            worldLandmarks := Some (shoulders 0 1); processed := true |};
         {| f_timestamp := (2 / 30)%R; landmarks := None;
            worldLandmarks := Some (shoulders (-1) 0); processed := true |} ];
     totalFrames := 3; processedFrames := 3;
     duration := (3 / 30)%R; fps := 30%R; isComplete := true |}.


(** ** Comparing two bundles *)

(** The verdict read from the other video's side. *)
Definition mirror_improvement (i : Improvement) : Improvement :=
  match i with
  | Better => Worse
  | Worse => Better
  | Same => Same
  end.

Definition mirror_entry (e : MetricComparison R) : MetricComparison R :=
  {| c_reference := c_user e; c_user := c_reference e;
     c_difference := option_map Ropp (c_difference e);
     c_improvement := option_map mirror_improvement (c_improvement e) |}.

Definition mirror_comparison (c : Comparison R) : Comparison R :=
  {| cmp_airTime := mirror_entry (cmp_airTime c);
     cmp_rotations := mirror_entry (cmp_rotations c);
     cmp_height := mirror_entry (cmp_height c) |}.



(** A metric that is null or zero. *)
Definition missing_or_zero (v : option R) : Prop :=
  v = None \/ v = Some 0%R.


(** ** Vectors *)

(** The dot product, as [calculateAngleBetweenVectors] computes it. *)
Definition dot (v1 v2 : Vector3 R) : R :=
  (vx v1 * vx v2 + vy v1 * vy v2 + vz v1 * vz v2)%R.

(** The vector [k * v]. *)
Definition scale (k : R) (v : Vector3 R) : Vector3 R :=
  {| vx := (k * vx v)%R; vy := (k * vy v)%R; vz := (k * vz v)%R |}.



(** ** The closest frame *)

(** The state of the loop of [findClosestFrameByTime] before index [k]. *)
Definition closest_inv (d0 : FrameAnalysis R) (frames : list (FrameAnalysis R))
    (t : R) (k : nat) (st : nat * R) : Prop :=
  (fst st < k)%nat /\
  snd st = Rabs (f_timestamp (nth (fst st) frames d0) - t)%R /\
  forall j, (j < k)%nat ->
    (snd st <= Rabs (f_timestamp (nth j frames d0) - t))%R /\
    ((j < fst st)%nat -> (snd st < Rabs (f_timestamp (nth j frames d0) - t))%R).

(** * Properties *)

(** ** The loops, read as folds over consecutive samples *)

Section LoopFree.
Context {A : Type} `{JSNumber A}.
Local Open Scope js_scope.

Lemma fold_left_ext {S I : Type} (f g : S -> I -> S) :
  (forall s i, f s i = g s i) ->
  forall l s, fold_left f l s = fold_left g l s.
Proof.
  intros E l; induction l as [|i l IH]; intros s; cbn; [reflexivity|].
  rewrite E. apply IH.
Qed.

Lemma fold_left_pairs {T S : Type} (step : T -> T -> S -> S) (d0 : T) :
  forall rest pre prev s l,
    l = pre ++ prev :: rest ->
    fold_left (fun s i => step (nth i l d0) (nth (i - 1) l d0) s)
              (seq (Datatypes.S (length pre)) (length rest)) s
    = fold_pairs step prev rest s.
Proof.
  induction rest as [|cur rest IH]; intros pre prev s l Hl; [reflexivity|].
  cbn [length seq fold_left fold_pairs].
  assert (Hcur : nth (Datatypes.S (length pre)) l d0 = cur).
  { subst l. rewrite app_nth2 by lia.
    replace (Datatypes.S (length pre) - length pre)%nat with 1%nat by lia.
    reflexivity. }
  assert (Hprev : nth (Datatypes.S (length pre) - 1) l d0 = prev).
  { subst l. rewrite app_nth2 by lia.
    replace (Datatypes.S (length pre) - 1 - length pre)%nat with 0%nat by lia.
    reflexivity. }
  rewrite Hcur, Hprev.
  replace (Datatypes.S (Datatypes.S (length pre)))
    with (Datatypes.S (length (pre ++ [prev])))
    by (rewrite length_app; cbn; lia).
  apply IH. subst l. rewrite <- app_assoc. reflexivity.
Qed.

Lemma for_range_pairs {T S : Type} (step : T -> T -> S -> S) (d0 prev : T)
    (rest : list T) (s : S) :
  for_range 1 (length (prev :: rest))
    (fun i s => step (nth i (prev :: rest) d0) (nth (i - 1) (prev :: rest) d0) s) s
  = fold_pairs step prev rest s.
Proof.
  unfold for_range. cbn [length]. rewrite Nat.sub_succ, Nat.sub_0_r.
  apply (fold_left_pairs step d0 rest [] prev s eq_refl).
Qed.

Lemma netRotation_pairs (d0 : AngleData A) (rest : list (AngleData A)) :
  netRotation (d0 :: rest) = fold_pairs pass1_step d0 rest '0.
Proof.
  unfold netRotation.
  exact (for_range_pairs pass1_step d0 d0 rest '0).
Qed.

Lemma calculateCumulativeRotation_pairs (d0 d1 : AngleData A)
    (rest : list (AngleData A)) :
  calculateCumulativeRotation (d0 :: d1 :: rest)
  = snd (fold_pairs
           (pass2_step (netRotation (d0 :: d1 :: rest) >? '0)
                       (netRotation (d0 :: d1 :: rest) <? '0))
           d0 (d1 :: rest)
           ('0, [ {| timestamp := timestamp d0; frameIndex := frameIndex d0;
                     angle := '0 |} ])).
Proof.
  unfold calculateCumulativeRotation. cbv zeta. f_equal.
  rewrite <- (for_range_pairs _ d0 d0 (d1 :: rest)).
  unfold for_range. apply fold_left_ext; intros [c out] i.
  reflexivity.
Qed.

End LoopFree.

(** ** The tracker in exact arithmetic *)

Section ExactTracker.
Import TwoPassReference.
Local Open Scope R_scope.

Lemma wrap_code_exact (d : R) : wrap_code d = wrap180 d.
Proof.
  unfold wrap_code, wrap180. exact_arith. split_cmp.
Qed.

Lemma force_code_exact (net d : R) :
  force_code (net >? '0)%js (net <? '0)%js d = lock (classify net) d.
Proof.
  unfold force_code, lock, classify, ROTATION_NOISE_THRESHOLD. exact_arith.
  split_cmp.
Qed.

Lemma deltas_cons2 (a b : R) (l : list R) :
  deltas (a :: b :: l) = (b - a) :: deltas (b :: l).
Proof. reflexivity. Qed.

Lemma pass1_fold (rest : list (AngleData R)) :
  forall prev acc,
    fold_pairs pass1_step prev rest acc
    = acc + net_rotation (map (fun d => angle d) (prev :: rest)).
Proof.
  unfold net_rotation.
  induction rest as [|cur rest IH]; intros prev acc.
  - cbn. lra.
  - cbn [fold_pairs]. rewrite IH. cbn [map]. rewrite deltas_cons2.
    cbn [map Rsum fold_right]. fold (Rsum (map wrap180
      (deltas (angle cur :: map (fun d => angle d) rest)))).
    unfold pass1_step. rewrite wrap_code_exact. exact_arith. lra.
Qed.

Lemma netRotation_exact (data : list (AngleData R)) :
  netRotation data = net_rotation (map (fun d => angle d) data).
Proof.
  destruct data as [|d0 rest]; [reflexivity|].
  rewrite netRotation_pairs, pass1_fold. exact_arith. lra.
Qed.

Lemma prefix_sums_cons (x : R) (ds : list R) :
  prefix_sums (x :: ds) = 0 :: map (Rplus x) (prefix_sums ds).
Proof.
  unfold prefix_sums. cbn [length].
  change (seq 0 (S (S (length ds)))) with (0%nat :: seq 1 (S (length ds))).
  cbn [map firstn Rsum fold_right]. f_equal.
  rewrite <- seq_shift, !map_map. reflexivity.
Qed.

Lemma prefix_sums_head (ds : list R) :
  prefix_sums ds = 0 :: tl (prefix_sums ds).
Proof. reflexivity. Qed.

Lemma relabel_cons (d : AngleData R) (data : list (AngleData R)) (c : R)
    (cs : list R) :
  relabel (d :: data) (c :: cs)
  = {| timestamp := timestamp d; frameIndex := frameIndex d; angle := c |}
      :: relabel data cs.
Proof. reflexivity. Qed.

Lemma pass2_fold (net : R) (rest : list (AngleData R)) :
  forall prev acc out,
    snd (fold_pairs (pass2_step (net >? '0)%js (net <? '0)%js) prev rest
           (acc, out))
    = out ++ relabel rest
               (map (Rplus acc)
                  (tl (cumulative (classify net)
                         (map (fun d => angle d) (prev :: rest))))).
Proof.
  unfold cumulative.
  induction rest as [|cur rest IH]; intros prev acc out.
  - cbn. now rewrite app_nil_r.
  - cbn [fold_pairs]. unfold pass2_step at 2. cbn [fst snd].
    rewrite IH, <- app_assoc. f_equal. cbn [app map].
    rewrite deltas_cons2. cbn [map]. rewrite prefix_sums_cons. cbn [tl].
    rewrite (prefix_sums_head (map _ (deltas _))).
    cbn [map tl]. rewrite relabel_cons, force_code_exact. exact_arith.
    rewrite Rplus_0_r. f_equal. f_equal.
    rewrite map_map. apply map_ext; intros s. lra.
Qed.

Lemma two_pass_of_pairs (d0 d1 : AngleData R) (rest : list (AngleData R)) :
  calculateCumulativeRotation (d0 :: d1 :: rest) = two_pass (d0 :: d1 :: rest).
Proof.
  rewrite calculateCumulativeRotation_pairs, pass2_fold.
  unfold two_pass. rewrite netRotation_exact.
  set (angles := map (fun d => angle d) (d0 :: d1 :: rest)).
  unfold cumulative.
  rewrite (prefix_sums_head (map _ (deltas angles))) at 2.
  rewrite relabel_cons. cbn [app]. exact_arith. f_equal. f_equal.
  rewrite <- (map_id (tl _)) at 2. apply map_ext; intros s. lra.
Qed.

End ExactTracker.



(** ** Sign of the final cumulative rotation *)

Section ExactSign.
Import TwoPassReference.
Local Open Scope R_scope.

Lemma Rsum_le (f g : R -> R) (l : list R) :
  (forall d, f d <= g d) -> Rsum (map f l) <= Rsum (map g l).
Proof.
  intros Hfg. induction l as [|d l IH]; cbn; [lra|].
  specialize (Hfg d). fold (Rsum (map f l)) (Rsum (map g l)). lra.
Qed.

Lemma lock_CCW_ge_wrap (d : R) : wrap180 d <= lock CCW d.
Proof. unfold wrap180, lock. split_cmp. Qed.

Lemma lock_CW_le_wrap (d : R) : lock CW d <= wrap180 d.
Proof. unfold wrap180, lock. split_cmp. Qed.

(** The accumulator of Pass 2 is the sum of the locked deltas, and it is the
    angle of the sample pushed last. *)
Lemma pass2_accumulator (net : R) (d : AngleData R) (rest : list (AngleData R)) :
  forall prev acc out,
    out <> [] -> angle (last out d) = acc ->
    let final :=
      fold_pairs (pass2_step (net >? '0)%js (net <? '0)%js) prev rest (acc, out) in
    angle (last (snd final) d) = fst final /\
    fst final = acc + Rsum (map (lock (classify net))
                              (deltas (map (fun d => angle d) (prev :: rest)))).
Proof.
  induction rest as [|cur rest IH]; intros prev acc out Hne Hlast; cbn zeta.
  - cbn. split; [assumption | lra].
  - cbn [fold_pairs].
    set (c := (acc + force_code (net >? '0) (net <? '0)
                       (angle cur - angle prev))%js).
    set (x := {| timestamp := timestamp cur; frameIndex := frameIndex cur;
                 angle := c |}).
    change (pass2_step (net >? '0)%js (net <? '0)%js cur prev (acc, out))
      with (c, out ++ [x]).
    destruct (IH cur c (out ++ [x])) as [Ha Hb].
    + intros E. apply app_eq_nil in E. destruct E; discriminate.
    + rewrite last_last. reflexivity.
    + split; [exact Ha|]. rewrite Hb. subst c. cbn [map].
      rewrite deltas_cons2. cbn [map Rsum fold_right].
      rewrite force_code_exact. exact_arith.
      fold (Rsum (map (lock (classify net))
                    (deltas (angle cur :: map (fun d => angle d) rest)))).
      lra.
Qed.


End ExactSign.



(** ** The uniform three-turn scenario, run on binary64 floats *)

(** 30 samples hold only 29 steps of 36 degrees: the tracker ends at 1044
    degrees and the rotation count over the whole series is 2.9, neither
    1080 nor 3. *)
Lemma C2_thirty_samples_fall_short :
  final_angle (calculateCumulativeRotation (uniform_ccw (A := PrimFloat.float) 30))
    = Some ('1044)%js /\
  extractRotationFromAngleAnalysis
    (Some (shoulder_analysis (uniform_ccw (A := PrimFloat.float) 30))) 2 27
    = Some (decimal 29 10) /\
  (ofZ (A := PrimFloat.float) 1044 =? '1080)%js = false /\
  (decimal (A := PrimFloat.float) 29 10 =? '3)%js = false.
Proof. repeat split; vm_compute; reflexivity. Qed.

(** C2 (amended).  For a perfectly uniform CCW rotation with steps of +36
    degrees (angles [36 * i mod 360]), computed on binary64 floats: the 31
    samples [i = 0..30] that span 3 full turns yield a final cumulative value
    of exactly +1080 degrees and a rotation count of exactly 3.0; the 30
    samples [i = 0..29] span 29 steps and yield +1044 degrees and a rotation
    count of 2.9. *)
Theorem C2_uniform_three_turns :
  final_angle (calculateCumulativeRotation (uniform_ccw (A := PrimFloat.float) 31))
    = Some ('1080)%js /\
  extractRotationFromAngleAnalysis
    (Some (shoulder_analysis (uniform_ccw (A := PrimFloat.float) 31))) 2 28
    = Some ('3)%js /\
  final_angle (calculateCumulativeRotation (uniform_ccw (A := PrimFloat.float) 30))
    = Some ('1044)%js /\
  extractRotationFromAngleAnalysis
    (Some (shoulder_analysis (uniform_ccw (A := PrimFloat.float) 30))) 2 27
    = Some (decimal 29 10).
Proof. repeat split; vm_compute; reflexivity. Qed.

(** ** The two encodings of the circular signal *)


Section ExactEncoding.
Import TwoPassReference.
Local Open Scope R_scope.










End ExactEncoding.



(** ** The metrics engine *)

Section Engine.
Context {A : Type} `{JSNumber A}.
Local Open Scope js_scope.

(** The closest frame is a frame of the sequence. *)
Lemma closest_body_bound (d0 : FrameAnalysis A) (frames : list (FrameAnalysis A))
    (t : A) (n : nat) :
  forall l st,
    Forall (fun i => (i < n)%nat) l -> (fst st < n)%nat ->
    (fst (fold_left (fun s i => closest_body d0 frames t i s) l st) < n)%nat.
Proof.
  induction l as [|i l IH]; intros [c m] Hl Hst; [exact Hst|].
  inversion Hl as [|? ? Hi Hl']; subst. cbn [fold_left]. apply IH; [exact Hl'|].
  unfold closest_body. destruct (_ <? m); [exact Hi | exact Hst].
Qed.

Lemma findClosestFrameByTime_bound (frames : list (FrameAnalysis A)) (t : A)
    (i : Z) :
  findClosestFrameByTime frames t = Some i ->
  (0 <= i < Z.of_nat (length frames))%Z.
Proof.
  unfold findClosestFrameByTime. destruct frames as [|f0 rest]; [discriminate|].
  intros E. injection E as <-. unfold for_range.
  pose proof (@closest_body_bound f0 (f0 :: rest) t (length (f0 :: rest))
                (seq 1 (length (f0 :: rest) - 1))
                (0%nat, Math_abs (f_timestamp f0 - t))) as Hb.
  cbn zeta. split; [lia|]. apply Nat2Z.inj_lt, Hb.
  - apply Forall_forall. intros k Hk. apply in_seq in Hk. cbn [length] in *. lia.
  - cbn. lia.
Qed.

Lemma nth_error_in_range {T : Type} (l : list T) (i : Z) :
  (0 <= i < Z.of_nat (length l))%Z -> exists x, nth_error l (Z.to_nat i) = Some x.
Proof.
  intros Hi. destruct (nth_error l (Z.to_nat i)) as [x|] eqn:E; [now exists x|].
  apply nth_error_None in E. lia.
Qed.

(** What [computeJumpMetrics] returns once the markers resolve to an
    ordered pair of analysis frames. *)
Lemma computeJumpMetrics_resolved (analysis : VideoAnalysis A)
    (manualMarkers : ManualMarkers A) (videoType : VideoType)
    (angleAnalysis : option (AngleAnalysis A)) (takeoff landing : Z) :
  resolves analysis manualMarkers videoType takeoff landing ->
  (takeoff < landing)%Z ->
  exists takeoffData landingData,
    nth_error (frames analysis) (Z.to_nat takeoff) = Some takeoffData /\
    nth_error (frames analysis) (Z.to_nat landing) = Some landingData /\
    computeJumpMetrics (Some analysis) (Some manualMarkers) videoType
      angleAnalysis
    = inr {| airTime := Some (f_timestamp landingData - f_timestamp takeoffData);
             takeoffFrame := Some takeoff;
             landingFrame := Some landing;
             rotations :=
               extractRotationFromAngleAnalysis angleAnalysis takeoff landing;
             maxHeight :=
               calculateJumpHeight
                 (f_timestamp landingData - f_timestamp takeoffData) |}.
Proof.
  intros (Hc & rawT & rawL & Ht & Hl & Hft & Hfl) Hlt.
  destruct (nth_error_in_range (frames analysis)
              (findClosestFrameByTime_bound _ _ Hft)) as [td Htd].
  destruct (nth_error_in_range (frames analysis)
              (findClosestFrameByTime_bound _ _ Hfl)) as [ld Hld].
  exists td, ld. split; [exact Htd|]. split; [exact Hld|].
  unfold computeJumpMetrics. rewrite Hc. cbn [negb]. rewrite Ht, Hl.
  cbv zeta. rewrite Hft, Hfl.
  destruct (Z.geb_spec takeoff landing); [lia|].
  rewrite Htd, Hld. reflexivity.
Qed.

End Engine.

(** C6.  For every number model (binary64 floats included): when the
    analysis is complete and the markers resolve to analysis frames with
    [takeoff >= landing], [computeJumpMetrics] raises the invalid-sequence
    error; it returns no metrics bundle, so no negative air time. *)
Theorem C6_takeoff_not_before_landing_is_an_error
    (A : Type) (N : JSNumber A) (analysis : VideoAnalysis A)
    (manualMarkers : ManualMarkers A) (videoType : VideoType)
    (angleAnalysis : option (AngleAnalysis A)) (takeoff landing : Z) :
  resolves analysis manualMarkers videoType takeoff landing ->
  (takeoff >= landing)%Z ->
  computeJumpMetrics (Some analysis) (Some manualMarkers) videoType
    angleAnalysis
  = inl (InvalidFrameSequence takeoff landing).
Proof.
  intros (Hc & rawT & rawL & Ht & Hl & Hft & Hfl) Hge.
  unfold computeJumpMetrics. rewrite Hc. cbn [negb]. rewrite Ht, Hl.
  cbv zeta. rewrite Hft, Hfl.
  destruct (Z.geb_spec takeoff landing); [reflexivity|lia].
Qed.

Lemma C6_witness :
  computeJumpMetrics (Some ten_frames) (Some (markers_at 6 3)) User None
  = inl (InvalidFrameSequence 6 3).
Proof.
  apply (@C6_takeoff_not_before_landing_is_an_error PrimFloat.float _
           ten_frames (markers_at 6 3) User None 6 3).
  - split; [reflexivity|].
    exists ('6)%js, ('3)%js. repeat split; vm_compute; reflexivity.
  - lia.
Defined.

(** Outputs of [analyzeAngles] carry the tracker's result for their own
    shoulder-rotation channel. *)
Lemma analyzeAngles_tracked (A : Type) (N : JSNumber A) (T : JSTrig A)
    (analysis : VideoAnalysis A) :
  shoulderCumulativeRotation (analyzeAngles analysis)
  = calculateCumulativeRotation (shoulderRotation (analyzeAngles analysis)).
Proof. reflexivity. Qed.



(** ** The expanded rotation window *)

Section Window.
Context {A : Type} `{JSNumber A}.

Lemma find_app {T : Type} (p : T -> bool) (l1 l2 : list T) :
  find p (l1 ++ l2)
  = match find p l1 with Some x => Some x | None => find p l2 end.
Proof.
  induction l1 as [|x l1 IH]; [reflexivity|]. cbn. now destruct (p x).
Qed.

Lemma find_ext_in {T : Type} (p q : T -> bool) (l : list T) :
  (forall x, In x l -> p x = q x) -> find p l = find q l.
Proof.
  induction l as [|x l IH]; intros E; [reflexivity|]. cbn.
  rewrite (E x (or_introl eq_refl)). destruct (q x); [reflexivity|].
  apply IH. intros y Hy. apply E. now right.
Qed.

Lemma nearest_after_keeps (start : Z) (l : list (AngleData A)) :
  forall b,
    Forall (fun d => (frameIndex b <= frameIndex d)%Z) l ->
    fold_left
      (fun best d =>
         if (start <=? frameIndex d)%Z then
           match best with
           | None => Some d
           | Some b => if (frameIndex d <? frameIndex b)%Z then Some d else best
           end
         else best) l (Some b) = Some b.
Proof.
  induction l as [|a l IH]; intros b Hb; [reflexivity|].
  inversion Hb as [|? ? Ha Hl]; subst. cbn [fold_left].
  destruct (start <=? frameIndex a)%Z; [|now apply IH].
  destruct (Z.ltb_spec (frameIndex a) (frameIndex b)); [lia|now apply IH].
Qed.

Lemma nearest_at_or_after_find (start : Z) (l : list (AngleData A)) :
  frame_ordered l ->
  nearest_at_or_after start l
  = find (fun data => (frameIndex data >=? start)%Z) l.
Proof.
  unfold nearest_at_or_after, frame_ordered.
  induction l as [|a l IH]; intros Hs; [reflexivity|].
  apply StronglySorted_inv in Hs. destruct Hs as [Hs Ha].
  cbn [fold_left find]. rewrite Z.geb_leb.
  destruct (start <=? frameIndex a)%Z; [|now apply IH].
  now apply nearest_after_keeps.
Qed.

Lemma nearest_before_scan (stop : Z) (l : list (AngleData A)) :
  forall best,
    frame_ordered l ->
    (forall b, best = Some b ->
               Forall (fun d => (frameIndex b <= frameIndex d)%Z) l) ->
    fold_left
      (fun best d =>
         if (frameIndex d <=? stop)%Z then
           match best with
           | None => Some d
           | Some b => if (frameIndex b <=? frameIndex d)%Z then Some d else best
           end
         else best) l best
    = match find (fun data => (frameIndex data <=? stop)%Z) (rev l) with
      | Some x => Some x
      | None => best
      end.
Proof.
  unfold frame_ordered.
  induction l as [|a l IH]; intros best Hs Hb; [reflexivity|].
  apply StronglySorted_inv in Hs. destruct Hs as [Hs Ha].
  cbn [fold_left rev]. rewrite find_app. cbn [find].
  set (p := fun data : AngleData A => (frameIndex data <=? stop)%Z).
  assert (Hstep :
    (if (frameIndex a <=? stop)%Z then
       match best with
       | None => Some a
       | Some b => if (frameIndex b <=? frameIndex a)%Z then Some a else best
       end
     else best) = if p a then Some a else best).
  { unfold p. destruct (frameIndex a <=? stop)%Z; [|reflexivity].
    destruct best as [b|]; [|reflexivity].
    specialize (Hb b eq_refl). inversion Hb as [|? ? Hba _]; subst.
    destruct (Z.leb_spec (frameIndex b) (frameIndex a)); [reflexivity|lia]. }
  rewrite Hstep, IH; [| exact Hs |].
  - fold p. destruct (find p (rev l)); [reflexivity|].
    unfold p. now destruct (frameIndex a <=? stop)%Z.
  - intros b' Eb'. destruct (p a).
    + injection Eb' as <-. exact Ha.
    + specialize (Hb b' Eb'). now inversion Hb.
Qed.

Lemma nearest_at_or_before_find_last (stop : Z) (l : list (AngleData A)) :
  frame_ordered l ->
  nearest_at_or_before stop l
  = find_last (fun data => (frameIndex data <=? stop)%Z) l.
Proof.
  intros Hs. unfold nearest_at_or_before, find_last.
  rewrite (@nearest_before_scan stop l None Hs); [|discriminate].
  now destruct (find _ (rev l)).
Qed.

Lemma find_last_clamp (lastIndex stop : Z) (l : list (AngleData A)) :
  Forall (fun d => (frameIndex d <= lastIndex)%Z) l ->
  find_last (fun data => (frameIndex data <=? Z.min lastIndex stop)%Z) l
  = find_last (fun data => (frameIndex data <=? stop)%Z) l.
Proof.
  intros Hb. unfold find_last. apply find_ext_in. intros x Hx.
  apply in_rev in Hx. rewrite Forall_forall in Hb. specialize (Hb x Hx).
  destruct (Z.leb_spec (frameIndex x) (Z.min lastIndex stop));
    destruct (Z.leb_spec (frameIndex x) stop); try reflexivity; lia.
Qed.

Lemma extractRotation_window (angleAnalysis : AngleAnalysis A)
    (lastIndex takeoff landing : Z) :
  frame_ordered (shoulderCumulativeRotation angleAnalysis) ->
  Forall (fun d => (frameIndex d <= lastIndex)%Z)
         (shoulderCumulativeRotation angleAnalysis) ->
  extractRotationFromAngleAnalysis (Some angleAnalysis) takeoff landing
  = window_rotation_count (shoulderCumulativeRotation angleAnalysis)
      lastIndex takeoff landing.
Proof.
  intros Hs Hb. unfold extractRotationFromAngleAnalysis, window_rotation_count.
  unfold ROTATION_PADDING_FRAMES. cbv zeta.
  rewrite (@nearest_at_or_after_find _ _ Hs).
  rewrite (@nearest_at_or_before_find_last _ _ Hs).
  rewrite (@find_last_clamp _ _ _ Hb).
  destruct (shoulderCumulativeRotation angleAnalysis) as [|d l]; reflexivity.
Qed.

End Window.



(** On this input the window is frames 1 to 8: the start falls back to the
    sample of frame 4, the end to the sample of frame 4 as well. *)
Example sparse_rotation_count :
  extractRotationFromAngleAnalysis (Some sparse_rotation) 3 6 = Some ('0)%js /\
  extractRotationFromAngleAnalysis (Some sparse_rotation) 3 7
    = Some (decimal 500 360).
Proof. split; vm_compute; reflexivity. Qed.

(** ** Jump height *)

Section FloatOrder.
Import Floats.

(** On binary64 floats [0 < t] excludes [t <= 0] (NaN satisfies neither). *)
Lemma float_pos_not_le (t : float) :
  PrimFloat.ltb 0 t = true -> PrimFloat.leb t 0 = false.
Proof.
  rewrite ltb_spec, leb_spec.
  change (Prim2SF 0) with (S754_zero false).
  destruct (Prim2SF t) as [[]|[]| |[] m e]; cbn; congruence.
Qed.

Lemma calculateJumpHeight_float (t : PrimFloat.float) :
  ((t >? '0)%js = true ->
   calculateJumpHeight t = Some ((decimal 981 100 * t * t) / '8)%js) /\
  ((t <=? '0)%js = true -> calculateJumpHeight t = None).
Proof.
  unfold calculateJumpHeight. split; intros Ht.
  - cbn [nltb nleb ofZ Float64.number] in *.
    change (Float64.of_Z 0) with 0%float in *.
    now rewrite (float_pos_not_le Ht).
  - now rewrite Ht.
Qed.

End FloatOrder.

Lemma calculateJumpHeight_exact (t : R) :
  (0 < t -> calculateJumpHeight t = Some (981 / 100 * t * t / 8))%R /\
  (t <= 0 -> calculateJumpHeight t = None)%R.
Proof.
  unfold calculateJumpHeight, decimal. exact_arith.
  split; intros Ht; destruct (Rle_dec t 0); try reflexivity; lra.
Qed.

(** C9.  On binary64 floats, for every air time [t]: the jump height is
    [9.81 * t * t / 8] when [t > 0] and null when [t <= 0]; for [t = 1.0] it
    is within 1e-9 of 1.22625.  The same two cases hold in exact
    arithmetic. *)
Theorem C9_jump_height :
  (forall t : PrimFloat.float,
     ((t >? '0)%js = true ->
      calculateJumpHeight t = Some ((decimal 981 100 * t * t) / '8)%js) /\
     ((t <=? '0)%js = true -> calculateJumpHeight t = None)) /\
  (exists h : PrimFloat.float,
     calculateJumpHeight ('1)%js = Some h /\
     (Math_abs (h - decimal 122625 100000) <? decimal 1 1000000000)%js = true) /\
  (forall t : R,
     (0 < t -> calculateJumpHeight t = Some (981 / 100 * t * t / 8))%R /\
     (t <= 0 -> calculateJumpHeight t = None)%R).
Proof.
  split; [exact calculateJumpHeight_float|].
  split; [|exact calculateJumpHeight_exact].
  eexists. split; vm_compute; reflexivity.
Qed.

(** ** Angle between vectors *)

Section AngleBetweenVectors.
Context {A : Type} `{JSNumber A} `{JSTrig A}.
Local Open Scope js_scope.

(** [calculateAngleBetweenVectors] returns 0 at the magnitude guard and
    otherwise converts the arc cosine of [clampedCosine] to degrees. *)
Lemma calculateAngleBetweenVectors_clamped (vector1 vector2 : Vector3 A) :
  calculateAngleBetweenVectors vector1 vector2
  = match clampedCosine vector1 vector2 with
    | None => '0
    | Some clampedCos => (Math_acos clampedCos * '180) / Math_PI
    end.
Proof.
  unfold calculateAngleBetweenVectors, clampedCosine. cbv zeta.
  now destruct (_ || _).
Qed.

End AngleBetweenVectors.

Section FloatNaN.
Import Floats.

Lemma is_nan_Prim2SF (x : float) :
  PrimFloat.is_nan x = true <-> Prim2SF x = S754_nan.
Proof.
  unfold PrimFloat.is_nan. rewrite eqb_spec. unfold SFeqb.
  destruct (Prim2SF x) as [s|s| |s m e]; cbn.
  - split; discriminate.
  - destruct s; cbn; split; discriminate.
  - split; reflexivity.
  - destruct s; rewrite Z.compare_refl, Pos.compare_cont_refl; cbn;
      split; discriminate.
Qed.

(** NaN propagates through multiplication and division. *)
Lemma nan_mul_l (x y : float) :
  PrimFloat.is_nan x = true -> PrimFloat.is_nan (x * y) = true.
Proof.
  rewrite !is_nan_Prim2SF, mul_spec. intros ->. reflexivity.
Qed.

Lemma nan_div_l (x y : float) :
  PrimFloat.is_nan x = true -> PrimFloat.is_nan (x / y) = true.
Proof.
  rewrite !is_nan_Prim2SF, div_spec. intros ->. reflexivity.
Qed.

(** With any [Math.acos] that maps NaN to NaN (as ECMAScript specifies),
    [calculateAngleBetweenVectors] returns NaN on a vector whose squares
    overflow and on a vector with a NaN component. *)
Lemma calculateAngleBetweenVectors_nan (T : JSTrig float) :
  PrimFloat.is_nan (Math_acos nan) = true ->
  PrimFloat.is_nan (calculateAngleBetweenVectors huge_vector huge_vector)
    = true /\
  PrimFloat.is_nan (calculateAngleBetweenVectors nan_vector unit_x) = true.
Proof.
  intros Hacos. rewrite !calculateAngleBetweenVectors_clamped.
  assert (E1 : clampedCosine huge_vector huge_vector = Some nan)
    by (vm_compute; reflexivity).
  assert (E2 : clampedCosine nan_vector unit_x = Some nan)
    by (vm_compute; reflexivity).
  rewrite E1, E2. cbn [nmul ndiv Float64.number].
  split; apply nan_div_l, nan_mul_l, Hacos.
Qed.

End FloatNaN.


Section ExactAngles.
Local Open Scope R_scope.

Lemma degrees_of_acos (c : R) : 0 <= acos c * 180 / PI <= 180.
Proof.
  pose proof (acos_bound c) as [Hlo Hhi]. pose proof PI_RGT_0 as Hpi.
  split.
  - apply Rmult_le_pos; [nra|]. left. now apply Rinv_0_lt_compat.
  - apply (Rmult_le_reg_r PI); [exact Hpi|].
    unfold Rdiv. rewrite Rmult_assoc, Rinv_l by lra. nra.
Qed.



Lemma calculateAngleBetweenVectors_range (v1 v2 : Vector3 R) :
  0 <= calculateAngleBetweenVectors v1 v2 <= 180.
Proof.
  rewrite calculateAngleBetweenVectors_clamped.
  destruct (clampedCosine v1 v2); exact_arith; [apply degrees_of_acos | lra].
Qed.

Lemma vector_angle_calculators_range (calc : Landmarks R -> option R)
    (landmarks : Landmarks R) (a : R) :
  In calc vector_angle_calculators -> calc landmarks = Some a ->
  0 <= a <= 180.
Proof.
  unfold vector_angle_calculators. cbn [In].
  intros [<-|[<-|[<-|[<-|[<-|[<-|[]]]]]]];
    unfold calculateLeftKneeFlexion, calculateRightKneeFlexion, kneeFlexion,
           calculateHipFlexion, calculateHeadHipAlignment,
           calculateWeightBearingHipAngle, calculateShoulderAngleToIce,
           angleToHorizontal;
    repeat match goal with
      | |- context [landmark ?l ?i] => destruct (landmark l i)
      end;
    try discriminate; intros E; injection E as <-; cbv zeta;
    try apply calculateAngleBetweenVectors_range.
  all: match goal with
       | |- context [calculateAngleBetweenVectors ?u ?v] =>
           pose proof (calculateAngleBetweenVectors_range u v) as [Hlo Hhi];
           set (x := calculateAngleBetweenVectors u v) in *
       end;
       exact_arith; unfold Rmax; destruct (Rle_dec _ _); lra.
Qed.

End ExactAngles.


(** ** Gap filling *)

Section ExactGapFill.
Local Open Scope R_scope.

Lemma surrounding_all_before (t : R) (l : list (AngleData R)) :
  Forall (fun d => timestamp d < t) l ->
  forall i before,
    surrounding t l i before
    = (match l with [] => before | _ => Some (i + length l - 1)%nat end, None).
Proof.
  induction l as [|a l IH]; intros Hl i before; [reflexivity|].
  inversion Hl as [|? ? Ha Hl']; subst. cbn [surrounding]. exact_arith.
  destruct (Rle_dec (timestamp a) t); [|lra].
  destruct (Rle_dec t (timestamp a)); [lra|].
  rewrite (IH Hl'). destruct l; cbn [length]; do 2 f_equal; lia.
Qed.

Lemma surrounding_first_after (t : R) (pre : list (AngleData R))
    (q : AngleData R) (post : list (AngleData R)) :
  Forall (fun d => timestamp d < t) pre -> t < timestamp q ->
  forall i before,
    surrounding t (pre ++ q :: post) i before
    = (match pre with [] => before | _ => Some (i + length pre - 1)%nat end,
       Some (i + length pre)%nat).
Proof.
  induction pre as [|a pre IH]; intros Hpre Hq i before.
  - cbn [app surrounding length]. exact_arith.
    destruct (Rle_dec (timestamp q) t); [lra|].
    destruct (Rle_dec t (timestamp q)); [|lra].
    now rewrite Nat.add_0_r.
  - inversion Hpre as [|? ? Ha Hpre']; subst.
    cbn [app surrounding]. exact_arith.
    destruct (Rle_dec (timestamp a) t); [|lra].
    destruct (Rle_dec t (timestamp a)); [lra|].
    rewrite (IH Hpre' Hq). destruct pre; cbn [length]; do 2 f_equal; lia.
Qed.

Lemma split_first_after (t : R) (l : list (AngleData R)) :
  Forall (fun d => timestamp d <> t) l ->
  Forall (fun d => timestamp d < t) l \/
  exists pre q post,
    l = pre ++ q :: post /\ Forall (fun d => timestamp d < t) pre /\
    t < timestamp q.
Proof.
  induction l as [|a l IH]; intros Hl; [left; constructor|].
  inversion Hl as [|? ? Ha Hl']; subst.
  destruct (Rtotal_order (timestamp a) t) as [Hlt|[Heq|Hgt]];
    [|contradiction|].
  - destruct (IH Hl') as [Hall|(pre & q & post & -> & Hpre & Hq)].
    + left. now constructor.
    + right. exists (a :: pre), q, post. repeat split; [|exact Hq].
      now constructor.
  - right. exists [], a, l. repeat split; [constructor | exact Hgt].
Qed.

Lemma nth_last_index {T : Type} (l : list T) (d : T) :
  nth (length l - 1) l d = last l d.
Proof.
  induction l as [|a l IH]; [reflexivity|].
  destruct l as [|b l]; [reflexivity|].
  change (last (a :: b :: l) d) with (last (b :: l) d). rewrite <- IH.
  cbn [length].
  replace (S (S (length l)) - 1)%nat with (S (S (length l) - 1)) by lia.
  reflexivity.
Qed.

Lemma interpolateAngleValue_two (d0 d1 : AngleData R)
    (rest : list (AngleData R)) (t : R) :
  interpolateAngleValue (d0 :: d1 :: rest) t
  = let angleData := d0 :: d1 :: rest in
    let get i := nth i angleData d0 in
    match surrounding t angleData 0 None with
    | (None, Some a) => Some (angle (get a))
    | (Some b, None) => Some (angle (get b))
    | (Some b, Some a) =>
        if negb (Nat.eqb b a) then
          Some (angle (get b)
                + (angle (get a) - angle (get b))
                  * ((t - timestamp (get b))
                     / (timestamp (get a) - timestamp (get b))))
        else or_null (angle (get b))
    | (None, None) => None
    end.
Proof. reflexivity. Qed.

(** Away from the raw timestamps, [interpolateAngleValue] returns the
    clamped linear interpolation. *)
Lemma interpolateAngleValue_interpolated (raw : list (AngleData R)) (t : R) :
  raw <> [] ->
  Forall (fun d => timestamp d <> t) raw ->
  exists v, interpolateAngleValue raw t = Some v /\ interpolated raw t v.
Proof.
  intros Hne Hraw. destruct raw as [|d0 [|d1 rest]]; [contradiction| |].
  - exists (angle d0). split; [reflexivity|].
    inversion Hraw as [|? ? Hd _]; subst.
    destruct (Rtotal_order (timestamp d0) t) as [Hlt|[Heq|Hgt]];
      [|contradiction|].
    + right; left. now exists [], d0.
    + left. now exists d0, [].
  - rewrite interpolateAngleValue_two. cbv zeta.
    set (raw := d0 :: d1 :: rest) in *.
    destruct (split_first_after Hraw) as [Hall|(pre & q & post & E & Hpre & Hq)].
    + rewrite (surrounding_all_before Hall). unfold raw at 1.
      rewrite Nat.add_0_l, nth_last_index.
      eexists. split; [reflexivity|]. right; left.
      exists (removelast raw), (last raw d0). split; [|split; [|reflexivity]].
      * now apply app_removelast_last.
      * rewrite Forall_forall in Hall. apply Hall.
        rewrite (app_removelast_last d0 Hne) at 2.
        apply in_or_app. right. now left.
    + rewrite E, (@surrounding_first_after t pre q post Hpre Hq), Nat.add_0_l.
      destruct pre as [|p0 pre0] eqn:Epre.
      * cbn [length app nth]. eexists. split; [reflexivity|].
        left. now exists q, post.
      * rewrite <- Epre in *.
        assert (Hne' : pre <> []) by (rewrite Epre; discriminate).
        assert (Hlen : (1 <= length pre)%nat)
          by (rewrite Epre; cbn [length]; lia).
        pose proof (app_removelast_last d0 Hne') as Esplit.
        set (p := last pre d0) in *. set (pre' := removelast pre) in *.
        assert (Hp : nth (length pre - 1) (pre ++ q :: post) d0 = p).
        { rewrite app_nth1 by lia. apply nth_last_index. }
        assert (Hqn : nth (length pre) (pre ++ q :: post) d0 = q).
        { rewrite app_nth2 by lia. now rewrite Nat.sub_diag. }
        replace (Nat.eqb (length pre - 1) (length pre)) with false
          by (symmetry; apply Nat.eqb_neq; lia).
        cbn [negb]. rewrite Hp, Hqn. eexists. split; [reflexivity|].
        right; right. exists pre', p, q, post. split; [|split; [|reflexivity]].
        -- rewrite Esplit at 1. now rewrite <- app_assoc.
        -- split; [|exact Hq]. rewrite Forall_forall in Hpre. apply Hpre.
           rewrite Esplit. apply in_or_app. right. now left.
Qed.

End ExactGapFill.

Section ExactGapFillSeries.
Local Open Scope R_scope.

Lemma within_tolerance_exact (a t : R) :
  (Math_abs (a - t) <? TIMESTAMP_TOLERANCE)%js = true <-> Rabs (a - t) < 1 / 100.
Proof.
  unfold TIMESTAMP_TOLERANCE, decimal. exact_arith.
  destruct (Rlt_dec (Rabs (a - t)) (1 / 100)); split; intros; try assumption;
    try reflexivity; try discriminate; contradiction.
Qed.

(** For a raw series that is not empty, every frame gets exactly one sample. *)
Lemma fill_frame_filled (raw : list (AngleData R)) (k : nat)
    (frame : FrameAnalysis R) :
  raw <> [] ->
  exists out, fill_frame raw k frame = [out] /\ filled raw frame out.
Proof.
  intros Hne. unfold fill_frame. cbv zeta.
  destruct (find _ raw) as [x|] eqn:Ef.
  - apply find_some in Ef. destruct Ef as [Hin Hp].
    exists x. split; [reflexivity|]. left. split; [exact Hin|].
    now apply within_tolerance_exact.
  - assert (Hnone : forall d, In d raw ->
                ~ Rabs (timestamp d - f_timestamp frame) < 1 / 100).
    { intros d Hd Hclose. apply within_tolerance_exact in Hclose.
      pose proof (find_none _ _ Ef d Hd) as Hp. cbv beta in Hp. congruence. }
    assert (Hraw : Forall (fun d => timestamp d <> f_timestamp frame) raw).
    { apply Forall_forall. intros d Hd Heq. apply (Hnone d Hd).
      rewrite Heq. replace (f_timestamp frame - f_timestamp frame) with 0 by lra.
      rewrite Rabs_R0. lra. }
    destruct (interpolateAngleValue_interpolated Hne Hraw) as (v & Ev & Hv).
    rewrite Ev. eexists. split; [reflexivity|]. right.
    split; [exact Hnone|]. split; [reflexivity | exact Hv].
Qed.

Lemma flat_map_singletons {X Y : Type} (f : X -> list Y) (P : X -> Y -> Prop)
    (l : list X) :
  (forall x, In x l -> exists y, f x = [y] /\ P x y) ->
  Forall2 P l (flat_map f l).
Proof.
  induction l as [|x l IH]; intros Hf; [constructor|].
  destruct (Hf x (or_introl eq_refl)) as (y & Ey & Hy).
  cbn [flat_map]. rewrite Ey. cbn [app]. constructor; [exact Hy|].
  apply IH. intros x' Hx'. apply Hf. now right.
Qed.

Lemma flat_map_at_most_one {X Y : Type} (f : X -> list Y) (l : list X) :
  (forall x, (length (f x) <= 1)%nat) ->
  (length (flat_map f l) <= length l)%nat /\
  (length (flat_map f l) = length l ->
   Forall2 (fun x y => f x = [y]) l (flat_map f l)).
Proof.
  intros Hf. induction l as [|x l [IHle IHeq]]; [split; [auto | constructor]|].
  cbn [flat_map length]. rewrite length_app. specialize (Hf x).
  split; [lia|]. intros Hlen.
  destruct (f x) as [|y [|y' rest]] eqn:Ex; cbn [length] in *; try lia.
  cbn [app]. constructor; [exact Ex|]. apply IHeq. lia.
Qed.

Lemma map_snd_combine_seq {T : Type} (l : list T) :
  forall start, map snd (combine (seq start (length l)) l) = l.
Proof.
  induction l as [|x l IH]; intros start; [reflexivity|].
  cbn. now rewrite IH.
Qed.

Lemma Forall2_map_snd {X Y Z : Type} (P : Y -> Z -> Prop) (l : list (X * Y))
    (l' : list Z) :
  Forall2 (fun x z => P (snd x) z) l l' -> Forall2 P (map snd l) l'.
Proof. induction 1; cbn; constructor; assumption. Qed.

Lemma Forall2_In_r {X Y : Type} (P : X -> Y -> Prop) (l : list X) (l' : list Y) :
  Forall2 P l l' -> Forall2 (fun x y => P x y /\ In y l') l l'.
Proof.
  induction 1 as [|x y l l' Hxy _ IH]; constructor.
  - split; [exact Hxy | now left].
  - eapply Forall2_impl; [|exact IH]. cbv beta. intros a b [Hab Hb].
    split; [exact Hab | now right].
Qed.

(** The loop of [fillAngleDataGaps] pushes one sample per frame. *)
Lemma completeData_filled (raw : list (AngleData R))
    (allFrames : list (FrameAnalysis R)) :
  raw <> [] ->
  Forall2 (filled raw) allFrames
    (flat_map (fun '(frameIndex, frame) => fill_frame raw frameIndex frame)
       (combine (seq 0 (length allFrames)) allFrames)).
Proof.
  intros Hne.
  rewrite <- (map_snd_combine_seq allFrames 0) at 1.
  apply Forall2_map_snd.
  apply (flat_map_singletons
           (fun '(frameIndex, frame) => fill_frame raw frameIndex frame)
           (fun x out => filled raw (snd x) out)).
  intros [k frame] _. apply fill_frame_filled, Hne.
Qed.

Lemma fillAngleDataGaps_nonempty (raw : list (AngleData R))
    (allFrames : list (FrameAnalysis R)) :
  raw <> [] ->
  fillAngleDataGaps raw allFrames
  = let completeData :=
      flat_map (fun '(frameIndex, frame) => fill_frame raw frameIndex frame)
        (combine (seq 0 (length allFrames)) allFrames) in
    if (length raw <? length completeData)%nat then completeData else raw.
Proof. destruct raw; [contradiction | reflexivity]. Qed.

Lemma raw_channel_samples (calc : Landmarks R -> option R)
    (frames : list (FrameAnalysis R)) :
  raw_channel calc frames = flat_map (raw_sample calc) (usable_frames frames).
Proof.
  unfold raw_channel. apply flat_map_ext. intros [k f]. reflexivity.
Qed.

Lemma analyzeChannel_filled (calc : Landmarks R -> option R)
    (frames : list (FrameAnalysis R)) :
  raw_channel calc frames <> [] ->
  length (analyzeChannel calc frames) = length (usable_frames frames) /\
  Forall2 (filled (raw_channel calc frames))
    (map snd (usable_frames frames)) (analyzeChannel calc frames).
Proof.
  intros Hne.
  assert (Hall : Forall2 (filled (raw_channel calc frames))
                   (map snd (usable_frames frames))
                   (analyzeChannel calc frames)).
  { unfold analyzeChannel. rewrite (fillAngleDataGaps_nonempty _ Hne).
    cbv zeta.
    pose proof (completeData_filled (map snd (usable_frames frames)) Hne)
      as Hcomplete.
    set (completeData := flat_map _ _) in *.
    destruct (Nat.ltb_spec (length (raw_channel calc frames))
                (length completeData)) as [Hlt|Hge]; [exact Hcomplete|].
    apply Forall2_length in Hcomplete. rewrite length_map in Hcomplete.
    rewrite raw_channel_samples in *.
    destruct (flat_map_at_most_one (raw_sample calc) (usable_frames frames))
      as [Hle Heq].
    { intros [k f]. unfold raw_sample. cbn [fst snd].
      destruct (worldLandmarks f) as [lms|]; [|cbn; lia].
      destruct (calc lms); cbn; lia. }
    specialize (Heq ltac:(lia)). apply Forall2_map_snd.
    apply Forall2_In_r in Heq. eapply Forall2_impl; [|exact Heq].
    cbv beta. intros [k f] out [Ex Hin]. left. split; [exact Hin|].
    unfold raw_sample in Ex. cbn [fst snd] in *.
    destruct (worldLandmarks f) as [lms|]; [|discriminate].
    destruct (calc lms); [|discriminate]. injection Ex as <-.
    cbn [timestamp]. replace (f_timestamp f - f_timestamp f) with 0 by lra.
    rewrite Rabs_R0. lra. }
  split; [|exact Hall].
  apply Forall2_length in Hall. now rewrite length_map in Hall.
Qed.

End ExactGapFillSeries.

(** Each gap-filled channel of [analyzeAngles] is [analyzeChannel] of its
    calculator. *)
Lemma analyzeAngles_channels (A : Type) (N : JSNumber A) (T : JSTrig A)
    (analysis : VideoAnalysis A) :
  Forall (fun '(calc, channel) =>
            channel (analyzeAngles analysis)
            = analyzeChannel calc (frames analysis))
         gap_filled_channels.
Proof. repeat constructor. Qed.

(** One processed frame whose world landmarks hold the left hip only: no
    calculator has the joints it needs, so every channel stays empty,
    although one frame counts. *)
Lemma C8_channel_without_samples_stays_empty :
  length (usable_frames (frames one_frame_without_joints)) = 1%nat /\
  Forall (fun '(_, channel) =>
            length (channel (analyzeAngles one_frame_without_joints)) = 0%nat)
         (gap_filled_channels (A := R)).
Proof. split; [reflexivity|]. repeat constructor. Qed.

(** C8 (amended).  In exact arithmetic, for every gap-filled channel of
    [analyzeAngles] that has at least one raw sample: the series has exactly
    one sample per processed frame with non-null world landmarks, in frame
    order, and the sample of a frame is a raw sample within 10 ms of the
    frame's timestamp or, when there is none, a sample at the frame's
    timestamp whose angle is the first raw value before the raw series'
    range, the last raw value after it, and in between the linear
    interpolation of the two adjacent raw samples around the timestamp. *)
Theorem C8_gap_filled_series (analysis : VideoAnalysis R)
    (calc : Landmarks R -> option R)
    (channel : AngleAnalysis R -> list (AngleData R)) :
  In (calc, channel) gap_filled_channels ->
  raw_channel calc (frames analysis) <> [] ->
  length (channel (analyzeAngles analysis))
    = length (usable_frames (frames analysis)) /\
  Forall2 (filled (raw_channel calc (frames analysis)))
    (map snd (usable_frames (frames analysis)))
    (channel (analyzeAngles analysis)).
Proof.
  intros Hin Hne.
  pose proof (@analyzeAngles_channels R _ _ analysis) as Hch.
  rewrite Forall_forall in Hch. specialize (Hch _ Hin). cbv beta iota in Hch.
  rewrite Hch. now apply analyzeChannel_filled.
Qed.

Lemma C8_witness :
  length (leftKneeFlexion (analyzeAngles knee_dropout_analysis))
    = length (usable_frames (frames knee_dropout_analysis)) /\
  Forall2 (filled (raw_channel calculateLeftKneeFlexion
                     (frames knee_dropout_analysis)))
    (map snd (usable_frames (frames knee_dropout_analysis)))
    (leftKneeFlexion (analyzeAngles knee_dropout_analysis)).
Proof.
  apply (@C8_gap_filled_series knee_dropout_analysis
           calculateLeftKneeFlexion (fun a => leftKneeFlexion a)).
  - left. reflexivity.
  - cbn. discriminate.
Defined.

(** * Further properties of the code *)

(** ** The tracker: alignment with its input *)

Section TrackerAlignment.
Context {A : Type} `{JSNumber A}.
Local Open Scope js_scope.

Lemma pass2_labels (isCCW isCW : bool) (rest : list (AngleData A)) :
  forall prev acc out,
    map labels (snd (fold_pairs (pass2_step isCCW isCW) prev rest (acc, out)))
    = map labels out ++ map labels rest.
Proof.
  induction rest as [|cur rest IH]; intros prev acc out.
  - cbn. now rewrite app_nil_r.
  - cbn [fold_pairs]. unfold pass2_step at 2. cbn [fst snd].
    rewrite IH, map_app, <- app_assoc. reflexivity.
Qed.

End TrackerAlignment.

(** X1.  For every number model and every series with at least 2 samples,
    the cumulative series has one sample per input sample, with the same
    timestamps and frame indices, in the same order. *)
Theorem cumulative_rotation_keeps_labels (A : Type) (N : JSNumber A)
    (data : list (AngleData A)) :
  (2 <= length data)%nat ->
  map labels (calculateCumulativeRotation data) = map labels data /\
  length (calculateCumulativeRotation data) = length data.
Proof.
  intros Hlen.
  assert (E : map labels (calculateCumulativeRotation data) = map labels data).
  { destruct data as [|d0 [|d1 rest]]; cbn [length] in Hlen; try lia.
    rewrite calculateCumulativeRotation_pairs, pass2_labels. reflexivity. }
  split; [exact E|].
  apply (f_equal (@length _)) in E. now rewrite !length_map in E.
Qed.

Lemma cumulative_rotation_keeps_labels_witness :
  map labels (calculateCumulativeRotation wobble_360) = map labels wobble_360 /\
  length (calculateCumulativeRotation wobble_360) = length wobble_360.
Proof.
  apply (@cumulative_rotation_keeps_labels PrimFloat.float _ wobble_360).
  cbn. lia.
Defined.

(** ** The tracker measures deltas: offsets and mirror images *)

Section TrackerSymmetry.
Import TwoPassReference.
Local Open Scope R_scope.

Lemma relabel_map_angles (f : R -> R) (data : list (AngleData R)) :
  forall values, relabel (map_angles f data) values = relabel data values.
Proof.
  induction data as [|d data IH]; intros [|c cs]; try reflexivity.
  cbn [map_angles map]. rewrite !relabel_cons. cbn [timestamp frameIndex].
  f_equal. apply IH.
Qed.

Lemma angles_map_angles (f : R -> R) (data : list (AngleData R)) :
  map (fun d => angle d) (map_angles f data)
  = map f (map (fun d => angle d) data).
Proof. unfold map_angles. now rewrite !map_map. Qed.

Lemma two_pass_map_angles (f : R -> R) (data : list (AngleData R)) :
  (2 <= length data)%nat ->
  calculateCumulativeRotation (map_angles f data)
  = relabel data
      (cumulative
         (classify (net_rotation (map f (map (fun d => angle d) data))))
         (map f (map (fun d => angle d) data))).
Proof.
  intros Hlen. destruct data as [|d0 [|d1 rest]]; cbn [length] in Hlen; try lia.
  assert (E : calculateCumulativeRotation (map_angles f (d0 :: d1 :: rest))
              = two_pass (map_angles f (d0 :: d1 :: rest)))
    by apply two_pass_of_pairs.
  rewrite E. unfold two_pass.
  now rewrite relabel_map_angles, angles_map_angles.
Qed.

Lemma deltas_offset (c : R) (l : list R) :
  deltas (map (fun a => a + c) l) = deltas l.
Proof.
  induction l as [|a l IH]; [reflexivity|].
  destruct l as [|b l]; [reflexivity|].
  cbn [map] in *. rewrite !deltas_cons2. f_equal; [lra | exact IH].
Qed.

Lemma deltas_opp (l : list R) : deltas (map Ropp l) = map Ropp (deltas l).
Proof.
  induction l as [|a l IH]; [reflexivity|].
  destruct l as [|b l]; [reflexivity|].
  cbn [map] in *. rewrite !deltas_cons2. cbn [map]. f_equal; [lra | exact IH].
Qed.

Lemma wrap180_opp (d : R) : wrap180 (- d) = - wrap180 d.
Proof. unfold wrap180. split_cmp. Qed.

Lemma Rsum_opp (l : list R) : Rsum (map Ropp l) = - Rsum l.
Proof.
  induction l as [|a l IH]; cbn; [lra|].
  fold (Rsum (map Ropp l)) (Rsum l). lra.
Qed.

Lemma classify_opp (net : R) : classify (- net) = opposite (classify net).
Proof. unfold classify. split_cmp. Qed.

Lemma lock_opp (dir : Direction) (d : R) :
  lock (opposite dir) (- d) = - lock dir d.
Proof. destruct dir; unfold lock, opposite; split_cmp. Qed.

Lemma prefix_sums_opp (ds : list R) :
  prefix_sums (map Ropp ds) = map Ropp (prefix_sums ds).
Proof.
  unfold prefix_sums. rewrite length_map, map_map.
  apply map_ext. intros k. now rewrite firstn_map, Rsum_opp.
Qed.

Lemma relabel_opp (data : list (AngleData R)) :
  forall values,
    relabel data (map Ropp values) = mirror_angles (relabel data values).
Proof.
  induction data as [|d data IH]; intros [|c cs]; try reflexivity.
  cbn [map]. rewrite !relabel_cons. unfold mirror_angles, map_angles.
  cbn [map timestamp frameIndex angle]. f_equal. apply IH.
Qed.

Lemma mirror_short (data : list (AngleData R)) :
  (length data < 2)%nat ->
  calculateCumulativeRotation (mirror_angles data) = [] /\
  calculateCumulativeRotation data = [].
Proof.
  destruct data as [|d0 [|d1 rest]]; cbn [length]; try lia; now split.
Qed.

Lemma two_pass_of_length (data : list (AngleData R)) :
  (2 <= length data)%nat -> calculateCumulativeRotation data = two_pass data.
Proof.
  intros Hlen. destruct data as [|d0 [|d1 rest]]; cbn [length] in Hlen; try lia.
  apply two_pass_of_pairs.
Qed.

Lemma mirror_commutes (data : list (AngleData R)) :
  calculateCumulativeRotation (mirror_angles data)
  = mirror_angles (calculateCumulativeRotation data).
Proof.
  destruct (le_lt_dec 2 (length data)) as [Hlen|Hlen].
  - unfold mirror_angles at 1. rewrite (@two_pass_map_angles Ropp data Hlen).
    rewrite (@two_pass_of_length data Hlen). unfold two_pass.
    set (angles := map (fun d => angle d) data).
    unfold net_rotation, cumulative.
    rewrite deltas_opp, !map_map. set (ds := deltas angles).
    assert (E1 : map (fun x => wrap180 (- x)) ds = map Ropp (map wrap180 ds))
      by (rewrite map_map; apply map_ext; intros x; apply wrap180_opp).
    rewrite E1, Rsum_opp, classify_opp.
    set (dir := classify (Rsum (map wrap180 ds))).
    assert (E2 : map (fun x => lock (opposite dir) (- x)) ds
                 = map Ropp (map (lock dir) ds))
      by (rewrite map_map; apply map_ext; intros x; apply lock_opp).
    rewrite E2, prefix_sums_opp. apply relabel_opp.
  - destruct (@mirror_short data Hlen) as [-> ->]. reflexivity.
Qed.

Lemma find_map_angles (f : R -> R) (p : Z -> bool) (l : list (AngleData R)) :
  find (fun d => p (frameIndex d)) (map_angles f l)
  = option_map (fun d => {| timestamp := timestamp d;
                            frameIndex := frameIndex d;
                            angle := f (angle d) |})
      (find (fun d => p (frameIndex d)) l).
Proof.
  induction l as [|d l IH]; [reflexivity|].
  cbn [map_angles map find frameIndex]. destruct (p (frameIndex d)).
  - reflexivity.
  - exact IH.
Qed.

End TrackerSymmetry.

(** X2.  In exact arithmetic the tracker measures deltas, not absolute
    positions: adding the same offset to every angle of a series leaves the
    cumulative rotation series unchanged. *)
Theorem cumulative_rotation_ignores_offset (c : R) (data : list (AngleData R)) :
  calculateCumulativeRotation (offset_angles c data)
  = calculateCumulativeRotation data.
Proof.
  destruct (le_lt_dec 2 (length data)) as [Hlen|Hlen].
  - unfold offset_angles. rewrite (@two_pass_map_angles _ data Hlen).
    rewrite (@two_pass_of_length data Hlen). unfold TwoPassReference.two_pass,
      TwoPassReference.net_rotation, TwoPassReference.cumulative.
    now rewrite deltas_offset.
  - destruct data as [|d0 [|d1 rest]]; cbn [length] in Hlen; try lia;
      reflexivity.
Qed.

(** X3.  In exact arithmetic, mirroring a motion (negating every angle)
    negates every cumulative rotation value, so a clockwise jump and its
    counter-clockwise mirror image get the same rotation count over every
    window. *)
Theorem mirrored_motion_has_mirrored_rotation (data : list (AngleData R)) :
  calculateCumulativeRotation (mirror_angles data)
    = mirror_angles (calculateCumulativeRotation data) /\
  forall takeoffFrame landingFrame,
    extractRotationFromAngleAnalysis
      (Some (shoulder_analysis (mirror_angles data))) takeoffFrame landingFrame
    = extractRotationFromAngleAnalysis
        (Some (shoulder_analysis data)) takeoffFrame landingFrame.
Proof.
  pose proof (mirror_commutes data) as E. split; [exact E|].
  intros t l. unfold extractRotationFromAngleAnalysis, shoulder_analysis.
  cbn [shoulderCumulativeRotation]. rewrite E. cbv zeta.
  set (cum := calculateCumulativeRotation data).
  unfold mirror_angles at 1. unfold map_angles at 1. rewrite length_map.
  destruct (Nat.eqb (length cum) 0); [reflexivity|].
  unfold find_last, mirror_angles.
  replace (rev (map_angles Ropp cum)) with (map_angles Ropp (rev cum))
    by (unfold map_angles; now rewrite map_rev).
  rewrite (find_map_angles Ropp
             (fun i => (i >=? Z.max 0 (t - ROTATION_PADDING_FRAMES))%Z)).
  rewrite (find_map_angles Ropp
             (fun i => (i <=? l + ROTATION_PADDING_FRAMES)%Z)).
  destruct (find _ cum) as [s|]; [|reflexivity].
  destruct (find _ (rev cum)) as [e|]; [|reflexivity].
  cbn [option_map angle]. exact_arith. do 2 f_equal.
  replace (- angle e - - angle s)%R with (- (angle e - angle s))%R by lra.
  apply Rabs_Ropp.
Qed.

(** ** The tracker only adds whole turns *)

Section TrackerTurns.
Import TwoPassReference.
Local Open Scope R_scope.

Lemma force_code_turns (isCCW isCW : bool) (d : R) :
  exists k : Z, force_code isCCW isCW d = d + 360 * IZR k.
Proof.
  unfold force_code, ROTATION_NOISE_THRESHOLD. exact_arith.
  destruct isCCW; [|destruct isCW].
  - destruct (Rlt_dec _ _); [exists 1%Z | exists 0%Z]; lra.
  - destruct (Rlt_dec _ _); [exists (-1)%Z | exists 0%Z]; lra.
  - exists 0%Z. lra.
Qed.

Lemma pass2_turns (isCCW isCW : bool) (a0 : R) (rest : list (AngleData R)) :
  forall prev acc out done,
    whole_turns_from a0 (angle prev) acc ->
    Forall2 (fun d c => whole_turns_from a0 (angle d) (angle c)) done out ->
    Forall2 (fun d c => whole_turns_from a0 (angle d) (angle c))
      (done ++ rest)
      (snd (fold_pairs (pass2_step isCCW isCW) prev rest (acc, out))).
Proof.
  induction rest as [|cur rest IH]; intros prev acc out done Hacc Hdone.
  - cbn. now rewrite app_nil_r.
  - cbn [fold_pairs]. unfold pass2_step at 2. cbn [fst snd].
    destruct Hacc as [k Hk].
    destruct (force_code_turns isCCW isCW (angle cur - angle prev)) as [j Hj].
    assert (Hcur : whole_turns_from a0 (angle cur)
                     (acc + force_code isCCW isCW (angle cur - angle prev))%js).
    { exists (k + j)%Z. exact_arith. rewrite Hj, Hk, plus_IZR. lra. }
    replace (done ++ cur :: rest) with ((done ++ [cur]) ++ rest)
      by now rewrite <- app_assoc.
    apply IH; [exact Hcur|].
    apply Forall2_app; [exact Hdone|]. constructor; [exact Hcur | constructor].
Qed.

End TrackerTurns.

(** X4.  In exact arithmetic, for a series of at least 2 samples starting
    at [d0], every cumulative rotation value differs from the raw displacement
    [angle - angle d0] of its sample by a whole number of turns: the tracker
    corrects deltas by multiples of 360 degrees only. *)
Theorem cumulative_rotation_is_displacement_mod_360
    (d0 : AngleData R) (data : list (AngleData R)) :
  (2 <= length data)%nat ->
  hd_error data = Some d0 ->
  Forall2 (fun d c => whole_turns_from (angle d0) (angle d) (angle c))
    data (calculateCumulativeRotation data).
Proof.
  intros Hlen Hhd.
  destruct data as [|d [|d1 rest]]; cbn [length] in Hlen; try lia.
  injection Hhd as ->. rewrite calculateCumulativeRotation_pairs.
  apply (@pass2_turns _ _ (angle d0) (d1 :: rest) d0 _ _ [d0]).
  - exists 0%Z. exact_arith. lra.
  - constructor; [|constructor]. exists 0%Z. cbn [angle]. exact_arith. lra.
Qed.

Lemma cumulative_rotation_is_displacement_mod_360_witness :
  Forall2 (fun d c => whole_turns_from 10 (angle d) (angle c))
    steady_360 (calculateCumulativeRotation steady_360).
Proof.
  apply (@cumulative_rotation_is_displacement_mod_360
           {| timestamp := (0 / 30)%R; frameIndex := 0; angle := 10%R |}
           steady_360).
  - cbn. lia.
  - reflexivity.
Defined.

(** ** Direction locking bounds every step *)

Section TrackerSteps.
Import TwoPassReference.
Local Open Scope R_scope.

Lemma deltas_shift (x : R) (l : list R) :
  deltas (map (Rplus x) l) = deltas l.
Proof.
  induction l as [|a l IH]; [reflexivity|].
  destruct l as [|b l]; [reflexivity|].
  cbn [map] in *. rewrite !deltas_cons2. f_equal; [lra | exact IH].
Qed.

(** The steps of the running sums are the summed deltas. *)
Lemma deltas_prefix_sums (ds : list R) : deltas (prefix_sums ds) = ds.
Proof.
  induction ds as [|x ds IH]; [reflexivity|].
  rewrite prefix_sums_cons. rewrite (prefix_sums_head ds) at 1.
  cbn [map]. rewrite deltas_cons2. f_equal; [lra|].
  change (x + 0 :: map (Rplus x) (tl (prefix_sums ds)))
    with (map (Rplus x) (0 :: tl (prefix_sums ds))).
  now rewrite <- prefix_sums_head, deltas_shift.
Qed.

Lemma angles_relabel (data : list (AngleData R)) :
  forall values,
    length values = length data ->
    map (fun d => angle d) (relabel data values) = values.
Proof.
  induction data as [|d data IH]; intros [|c cs] Hlen; cbn [length] in Hlen;
    try discriminate; [reflexivity|].
  rewrite relabel_cons. cbn [map angle]. f_equal. apply IH. lia.
Qed.

Lemma length_deltas (l : list R) : length (deltas l) = (length l - 1)%nat.
Proof.
  unfold deltas. rewrite length_map, length_combine.
  destruct l as [|a l]; cbn [tl length]; lia.
Qed.

Lemma length_prefix_sums (ds : list R) :
  length (prefix_sums ds) = S (length ds).
Proof. unfold prefix_sums. now rewrite length_map, length_seq. Qed.

(** The steps of the cumulative series are the locked deltas of the input. *)
Lemma cumulative_steps (data : list (AngleData R)) :
  (2 <= length data)%nat ->
  deltas (map (fun d => angle d) (calculateCumulativeRotation data))
  = map (lock (classify (netRotation data)))
      (deltas (map (fun d => angle d) data)).
Proof.
  intros Hlen. rewrite (@two_pass_of_length data Hlen). unfold two_pass.
  rewrite <- netRotation_exact. unfold cumulative.
  rewrite angles_relabel, deltas_prefix_sums; [reflexivity|].
  rewrite length_prefix_sums, !length_map, length_deltas, length_map. lia.
Qed.

Lemma deltas_in_turn (l : list R) :
  Forall in_turn l -> Forall (fun d => -360 < d < 360) (deltas l).
Proof.
  induction l as [|a l IH]; intros Hl; [constructor|].
  destruct l as [|b l]; [constructor|].
  inversion Hl as [|? ? Ha Hl']; subst. inversion Hl' as [|? ? Hb _]; subst.
  rewrite deltas_cons2. unfold in_turn in *. constructor; [lra | now apply IH].
Qed.

End TrackerSteps.

(** X5.  In exact arithmetic, for a series of at least 2 samples whose
    angles lie in [0, 360): when the net rotation is positive no step of the
    cumulative series is below -20 degrees (and each is below 360), and when
    it is negative no step is above +20 degrees (and each is above -360). *)
Theorem cumulative_rotation_steps_are_direction_locked
    (data : list (AngleData R)) :
  (2 <= length data)%nat ->
  Forall (fun d => in_turn (angle d)) data ->
  ((0 < netRotation data)%R ->
   Forall (fun step => -20 <= step < 360)%R
     (TwoPassReference.deltas
        (map (fun d => angle d) (calculateCumulativeRotation data)))) /\
  ((netRotation data < 0)%R ->
   Forall (fun step => -360 < step <= 20)%R
     (TwoPassReference.deltas
        (map (fun d => angle d) (calculateCumulativeRotation data)))).
Proof.
  intros Hlen Hturn. rewrite (@cumulative_steps data Hlen).
  assert (Hd : Forall (fun d => -360 < d < 360)%R
                 (TwoPassReference.deltas (map (fun d => angle d) data)))
    by (apply deltas_in_turn; now apply Forall_map).
  split; intros Hnet; apply Forall_map; eapply Forall_impl; try exact Hd;
    cbv beta; intros d Hr.
  - assert (E : TwoPassReference.classify (netRotation data)
                = TwoPassReference.CCW)
      by (unfold TwoPassReference.classify; split_cmp).
    rewrite E. unfold TwoPassReference.lock. split_cmp.
  - assert (E : TwoPassReference.classify (netRotation data)
                = TwoPassReference.CW)
      by (unfold TwoPassReference.classify; split_cmp).
    rewrite E. unfold TwoPassReference.lock. split_cmp.
Qed.

Lemma cumulative_rotation_steps_are_direction_locked_witness :
  ((0 < netRotation steady_360)%R ->
   Forall (fun step => -20 <= step < 360)%R
     (TwoPassReference.deltas
        (map (fun d => angle d) (calculateCumulativeRotation steady_360)))) /\
  ((netRotation steady_360 < 0)%R ->
   Forall (fun step => -360 < step <= 20)%R
     (TwoPassReference.deltas
        (map (fun d => angle d) (calculateCumulativeRotation steady_360)))).
Proof.
  apply (@cumulative_rotation_steps_are_direction_locked steady_360).
  - cbn. lia.
  - unfold in_turn. cbn. repeat constructor; cbn; lra.
Defined.

(** ** The legacy unwrapped count and the tracker *)

Section LegacyCount.
Import TwoPassReference.
Local Open Scope R_scope.

(** The [unwrapped] array of [countRotationsUnwrapped] does not influence
    [totalRotation]. *)
Lemma unwrapped_total (a0 : R) (angles : list R) :
  forall l st,
    fst (fold_left (fun s i => unwrapped_body a0 angles i s) l st)
    = fold_left (fun t i => t + wrap180 (nth i angles a0 - nth (i - 1) angles a0))
                l (fst st).
Proof.
  induction l as [|i l IH]; intros [t u]; [reflexivity|].
  cbn [fold_left]. rewrite IH. f_equal.
  unfold unwrapped_body, wrap180. cbn [fst]. exact_arith.
  split_cmp.
Qed.

Lemma wrapped_fold (rest : list R) :
  forall prev acc,
    fold_pairs (fun cur prev t => t + wrap180 (cur - prev)) prev rest acc
    = acc + net_rotation (prev :: rest).
Proof.
  unfold net_rotation.
  induction rest as [|cur rest IH]; intros prev acc.
  - cbn. lra.
  - cbn [fold_pairs]. rewrite IH, deltas_cons2. cbn [map Rsum fold_right].
    fold (Rsum (map wrap180 (deltas (cur :: rest)))). lra.
Qed.

Lemma countRotationsUnwrapped_exact (angles : list R) :
  (3 <= length angles)%nat ->
  countRotationsUnwrapped angles = Some (Rabs (net_rotation angles) / 360).
Proof.
  intros Hlen. unfold countRotationsUnwrapped.
  destruct (Nat.ltb_spec (length angles) 3) as [Hlt|_]; [lia|].
  destruct angles as [|a0 rest]; [cbn in Hlen; lia|]. cbv zeta.
  unfold for_range at 1. rewrite unwrapped_total. cbn [fst].
  pose proof (for_range_pairs (fun cur prev t => t + wrap180 (cur - prev))
                a0 a0 rest 0) as E.
  unfold for_range in E. exact_arith. rewrite E, wrapped_fold.
  now rewrite Rplus_0_l.
Qed.

Lemma final_angle_last {T : Type} (l : list (AngleData T)) (d : AngleData T) :
  l <> [] -> final_angle l = Some (angle (last l d)).
Proof.
  intros Hne. destruct (exists_last Hne) as (l' & x & ->).
  unfold final_angle. now rewrite rev_app_distr, last_last.
Qed.

(** The final cumulative value is the sum of the locked deltas. *)
Lemma final_angle_locked_sum (data : list (AngleData R)) :
  (2 <= length data)%nat ->
  final_angle (calculateCumulativeRotation data)
  = Some (Rsum (map (lock (classify (netRotation data)))
                  (deltas (map (fun d => angle d) data)))).
Proof.
  intros Hlen. destruct data as [|d0 [|d1 rest]]; cbn [length] in Hlen; try lia.
  set (data := d0 :: d1 :: rest).
  set (first := {| timestamp := timestamp d0; frameIndex := frameIndex d0;
                   angle := 0 |}).
  pose proof (calculateCumulativeRotation_pairs d0 d1 rest) as Hc.
  fold data in Hc.
  destruct (pass2_accumulator (netRotation data) first (d1 :: rest) d0
              (acc := 0) (out := [first])) as [Hlast Hacc];
    [discriminate | reflexivity |].
  change ('0)%js with 0 in *. fold first in Hc. rewrite <- Hc in Hlast.
  rewrite (final_angle_last (l := calculateCumulativeRotation data) first).
  - rewrite Hlast, Hacc. fold data. now rewrite Rplus_0_l.
  - intros E. apply (f_equal (map labels)) in E.
    rewrite Hc, pass2_labels in E. discriminate.
Qed.

Lemma locked_sum_dominates (net : R) (ds : list R) :
  net = Rsum (map wrap180 ds) ->
  Rabs net <= Rabs (Rsum (map (lock (classify net)) ds)).
Proof.
  intros Hnet. unfold classify.
  destruct (Rlt_dec 0 net) as [Hpos|Hnpos].
  - pose proof (Rsum_le wrap180 (lock CCW) ds lock_CCW_ge_wrap).
    rewrite !Rabs_right; lra.
  - destruct (Rlt_dec net 0) as [Hneg|Hnneg].
    + pose proof (Rsum_le (lock CW) wrap180 ds lock_CW_le_wrap).
      rewrite !Rabs_left; lra.
    + replace net with 0 by lra. rewrite Rabs_R0. apply Rabs_pos.
Qed.

End LegacyCount.

(** X6.  In exact arithmetic, for a series of at least 3 samples: the
    legacy [countRotationsUnwrapped] of its angles is [|net| / 360], where
    [net] is the tracker's Pass-1 net rotation, and the tracker's own count
    over the whole series, [|final cumulative value| / 360], is never below
    it. *)
Theorem unwrapped_count_is_net_and_a_lower_bound (data : list (AngleData R)) :
  (3 <= length data)%nat ->
  countRotationsUnwrapped (map (fun d => angle d) data)
    = Some (Rabs (netRotation data) / 360)%R /\
  exists final,
    final_angle (calculateCumulativeRotation data) = Some final /\
    (Rabs (netRotation data) / 360 <= Rabs final / 360)%R.
Proof.
  intros Hlen. split.
  - rewrite netRotation_exact. apply countRotationsUnwrapped_exact.
    now rewrite length_map.
  - eexists. split; [apply final_angle_locked_sum; lia|].
    apply Rmult_le_compat_r; [lra|].
    apply locked_sum_dominates, netRotation_exact.
Qed.

Lemma unwrapped_count_is_net_and_a_lower_bound_witness :
  countRotationsUnwrapped (map (fun d => angle d) steady_360)
    = Some (Rabs (netRotation steady_360) / 360)%R /\
  exists final,
    final_angle (calculateCumulativeRotation steady_360) = Some final /\
    (Rabs (netRotation steady_360) / 360 <= Rabs final / 360)%R.
Proof.
  apply (@unwrapped_count_is_net_and_a_lower_bound steady_360).
  cbn. lia.
Defined.

(** ** Gap filling when nothing is missing *)

Section NoGaps.
Context {A : Type} `{JSNumber A}.

Lemma fill_frame_at_most_one (raw : list (AngleData A)) (k : nat)
    (frame : FrameAnalysis A) :
  (length (fill_frame raw k frame) <= 1)%nat.
Proof.
  unfold fill_frame. cbv zeta. destruct (find _ raw); [cbn; lia|].
  destruct (interpolateAngleValue raw _); cbn; lia.
Qed.

Lemma length_flat_map_le {X Y : Type} (f : X -> list Y) (l : list X) :
  (forall x, (length (f x) <= 1)%nat) ->
  (length (flat_map f l) <= length l)%nat.
Proof.
  intros Hf. induction l as [|x l IH]; [cbn; lia|].
  cbn [flat_map length]. rewrite length_app. specialize (Hf x). lia.
Qed.

(** [fillAngleDataGaps] returns its input when the input has at least as
    many samples as there are frames. *)
Lemma fillAngleDataGaps_full (raw : list (AngleData A))
    (allFrames : list (FrameAnalysis A)) :
  (length allFrames <= length raw)%nat ->
  fillAngleDataGaps raw allFrames = raw.
Proof.
  intros Hlen. unfold fillAngleDataGaps. destruct raw as [|d raw]; [reflexivity|].
  cbv zeta. set (completeData := flat_map _ _).
  assert (Hc : (length completeData <= length allFrames)%nat).
  { unfold completeData.
    etransitivity; [apply length_flat_map_le|].
    - intros [k f]. apply fill_frame_at_most_one.
    - rewrite length_combine, length_seq. lia. }
  destruct (Nat.ltb_spec (length (d :: raw)) (length completeData));
    [lia | reflexivity].
Qed.

Lemma usable_frames_in (frames : list (FrameAnalysis A)) (k : nat)
    (f : FrameAnalysis A) :
  In (k, f) (usable_frames frames) ->
  In f frames /\ exists lms, worldLandmarks f = Some lms.
Proof.
  unfold usable_frames. intros Hin. apply filter_In in Hin.
  destruct Hin as [Hin Hu]. split; [now apply in_combine_r in Hin|].
  unfold usable in Hu. destruct (worldLandmarks f) as [lms|].
  - now exists lms.
  - now rewrite andb_false_r in Hu.
Qed.

Lemma raw_channel_all_defined (calc : Landmarks A -> option A)
    (l : list (nat * FrameAnalysis A)) :
  (forall k f, In (k, f) l ->
     exists lms a, worldLandmarks f = Some lms /\ calc lms = Some a) ->
  let raw :=
    flat_map (fun '(frameIndex, frame) =>
                match worldLandmarks frame with
                | None => []
                | Some lms =>
                    match calc lms with
                    | Some a => [ {| timestamp := f_timestamp frame;
                                     frameIndex := Z.of_nat frameIndex;
                                     angle := a |} ]
                    | None => []
                    end
                end) l in
  map (fun d => frameIndex d) raw = map (fun x => Z.of_nat (fst x)) l /\
  map (fun d => timestamp d) raw = map (fun x => f_timestamp (snd x)) l.
Proof.
  induction l as [|[k f] l IH]; intros Hdef; [now split|].
  destruct (Hdef k f (or_introl eq_refl)) as (lms & a & Hl & Ha).
  cbn zeta in *. cbn [flat_map]. rewrite Hl, Ha. cbn [app map fst snd].
  destruct IH as [IH1 IH2].
  - intros k' f' Hin. apply (Hdef k' f'). now right.
  - cbn [frameIndex timestamp]. now rewrite IH1, IH2.
Qed.

End NoGaps.

(** X7.  For every number model: when the calculator of a channel yields
    an angle for every frame with world landmarks, gap filling changes
    nothing; the channel is the raw series, one sample per usable frame with
    that frame's timestamp and its index in [analysis.frames]. *)
Theorem channel_without_gaps_is_raw (A : Type) (N : JSNumber A)
    (calc : Landmarks A -> option A) (frames : list (FrameAnalysis A)) :
  always_defined calc frames ->
  analyzeChannel calc frames = raw_channel calc frames /\
  map (fun d => frameIndex d) (analyzeChannel calc frames)
    = usable_indices frames /\
  map (fun d => timestamp d) (analyzeChannel calc frames)
    = map (fun x => f_timestamp (snd x)) (usable_frames frames).
Proof.
  intros Hdef.
  assert (Hall : forall k f, In (k, f) (usable_frames frames) ->
            exists lms a, worldLandmarks f = Some lms /\ calc lms = Some a).
  { intros k f Hin. apply usable_frames_in in Hin.
    destruct Hin as [Hin [lms Hl]]. exists lms.
    destruct (calc lms) as [a|] eqn:Ha; [now exists a|].
    now destruct (Hdef f lms Hin Hl). }
  destruct (raw_channel_all_defined calc (usable_frames frames) Hall)
    as [Hidx Hts].
  fold (raw_channel calc frames) in Hidx, Hts.
  assert (E : analyzeChannel calc frames = raw_channel calc frames).
  { unfold analyzeChannel. apply fillAngleDataGaps_full.
    apply (f_equal (@length _)) in Hidx. rewrite !length_map in *. lia. }
  rewrite E. unfold usable_indices. now repeat split.
Qed.

Lemma channel_without_gaps_is_raw_witness :
  analyzeChannel calculateLeftKneeFlexion tracked_leg
    = raw_channel calculateLeftKneeFlexion tracked_leg /\
  map (fun d => frameIndex d) (analyzeChannel calculateLeftKneeFlexion tracked_leg)
    = usable_indices tracked_leg /\
  map (fun d => timestamp d) (analyzeChannel calculateLeftKneeFlexion tracked_leg)
    = map (fun x => f_timestamp (snd x)) (usable_frames tracked_leg).
Proof.
  apply (@channel_without_gaps_is_raw R _ calculateLeftKneeFlexion tracked_leg).
  intros f lms [<-|[<-|[]]] [= <-]; cbn; discriminate.
Defined.


(** ** Gap filling and the range of the angles *)

Section GapFillRange.
Local Open Scope R_scope.

Lemma interval_kept (lo hi : R) :
  kept_by_interpolation (fun a => lo <= a <= hi).
Proof. intros p q l Hp Hq Hl. cbv beta. split; nra. Qed.


Lemma interpolated_kept (P : R -> Prop) (raw : list (AngleData R)) (t v : R) :
  kept_by_interpolation P -> Forall (fun d => P (angle d)) raw ->
  interpolated raw t v -> P v.
Proof.
  intros HP Hraw [(first & rest & -> & _ & ->)
                 |[(init & final & -> & _ & ->)
                  |(pre & p & q & post & -> & Ht & ->)]].
  - now inversion Hraw.
  - apply Forall_app in Hraw. destruct Hraw as [_ Hf]. now inversion Hf.
  - apply Forall_app in Hraw. destruct Hraw as [_ Hpq].
    inversion Hpq as [|? ? Hp Hq']; subst. inversion Hq' as [|? ? Hq _]; subst.
    apply HP; [exact Hp | exact Hq |].
    assert (Hd : 0 < timestamp q - timestamp p) by lra.
    split.
    + apply Rdiv_lt_0_compat; lra.
    + apply Rmult_lt_reg_r with (timestamp q - timestamp p); [exact Hd|].
      unfold Rdiv. rewrite Rmult_assoc, Rinv_l by lra. lra.
Qed.

Lemma filled_kept (P : R -> Prop) (raw : list (AngleData R))
    (frame : FrameAnalysis R) (out : AngleData R) :
  kept_by_interpolation P -> Forall (fun d => P (angle d)) raw ->
  filled raw frame out -> P (angle out).
Proof.
  intros HP Hraw [[Hin _]|(_ & _ & Hi)].
  - rewrite Forall_forall in Hraw. now apply Hraw.
  - now apply (interpolated_kept HP Hraw Hi).
Qed.

Lemma fillAngleDataGaps_kept (P : R -> Prop) (raw : list (AngleData R))
    (allFrames : list (FrameAnalysis R)) :
  kept_by_interpolation P -> Forall (fun d => P (angle d)) raw ->
  Forall (fun d => P (angle d)) (fillAngleDataGaps raw allFrames).
Proof.
  intros HP Hraw. destruct raw as [|d raw]; [constructor|].
  assert (Hne : d :: raw <> []) by discriminate.
  rewrite (fillAngleDataGaps_nonempty _ Hne). cbv zeta.
  pose proof (completeData_filled allFrames Hne) as Hc.
  set (completeData := flat_map _ _) in *.
  destruct (_ <? _)%nat; [|exact Hraw].
  clear -HP Hraw Hc. induction Hc as [|f out fs outs Hf _ IH]; constructor.
  - now apply (filled_kept HP Hraw Hf).
  - exact IH.
Qed.

Lemma raw_channel_kept (P : R -> Prop) (calc : Landmarks R -> option R)
    (frames : list (FrameAnalysis R)) :
  (forall lms a, calc lms = Some a -> P a) ->
  Forall (fun d => P (angle d)) (raw_channel calc frames).
Proof.
  intros Hcalc. rewrite raw_channel_samples. apply Forall_flat_map.
  apply Forall_forall. intros [k f] _. unfold raw_sample. cbn [fst snd].
  destruct (worldLandmarks f) as [lms|]; [|constructor].
  destruct (calc lms) as [a|] eqn:Ea; repeat constructor.
  cbn [angle]. now apply (Hcalc lms).
Qed.



End GapFillRange.

(** X8.  In exact arithmetic: gap filling never leaves the range of the raw
    values.  Whatever the frames, when every sample of the input series has
    its angle in [[lo, hi]], so has every sample of the series
    [fillAngleDataGaps] returns. *)
Theorem gap_filling_stays_within_raw_range (raw : list (AngleData R))
    (allFrames : list (FrameAnalysis R)) (lo hi : R) :
  Forall (fun d => (lo <= angle d <= hi)%R) raw ->
  Forall (fun d => (lo <= angle d <= hi)%R) (fillAngleDataGaps raw allFrames).
Proof.
  intros Hraw.
  exact (@fillAngleDataGaps_kept (fun a => (lo <= a <= hi)%R) raw allFrames
           (@interval_kept lo hi) Hraw).
Qed.

Lemma gap_filling_stays_within_raw_range_witness :
  Forall (fun d => (0 <= angle d <= 180)%R)
    (fillAngleDataGaps (raw_channel calculateLeftKneeFlexion knee_dropout)
       knee_dropout).
Proof.
  apply (@gap_filling_stays_within_raw_range
           (raw_channel calculateLeftKneeFlexion knee_dropout) knee_dropout
           0%R 180%R).
  apply (@raw_channel_kept (fun a => (0 <= a <= 180)%R)).
  intros lms a. apply vector_angle_calculators_range. now left.
Defined.



(** ** The frame index of gap-filled samples *)

Section GapFillIndex.
Context {A : Type} `{JSNumber A}.

Lemma in_combine_seq {X : Type} (l : list X) (s k : nat) (x : X) :
  In (k, x) (combine (seq s (length l)) l) ->
  nth_error l (k - s) = Some x /\ (s <= k)%nat.
Proof.
  revert s. induction l as [|a l IH]; intros s; cbn [length seq combine In];
    [tauto|].
  intros [E|Hin].
  - injection E as <- <-. rewrite Nat.sub_diag. split; [reflexivity | lia].
  - apply IH in Hin. destruct Hin as [Hn Hle].
    replace (k - s)%nat with (S (k - S s)) by lia. split; [exact Hn | lia].
Qed.

Lemma fill_frame_index (raw : list (AngleData A)) (k : nat)
    (frame : FrameAnalysis A) (d : AngleData A) :
  In d (fill_frame raw k frame) ->
  In d raw \/ (timestamp d = f_timestamp frame /\ frameIndex d = Z.of_nat k).
Proof.
  unfold fill_frame. cbv zeta. destruct (find _ raw) as [x|] eqn:Ef.
  - intros [<-|[]]. left. now apply find_some in Ef.
  - destruct (interpolateAngleValue raw _); [|intros []].
    intros [<-|[]]. right. now split.
Qed.

Lemma fillAngleDataGaps_index (raw : list (AngleData A))
    (allFrames : list (FrameAnalysis A)) :
  Forall (fun d =>
            In d raw \/
            exists pos frame,
              nth_error allFrames pos = Some frame /\
              timestamp d = f_timestamp frame /\
              frameIndex d = Z.of_nat pos)
         (fillAngleDataGaps raw allFrames).
Proof.
  unfold fillAngleDataGaps. destruct raw as [|d0 raw]; [constructor|].
  cbv zeta. set (completeData := flat_map _ _).
  destruct (_ <? _)%nat.
  - unfold completeData. apply Forall_flat_map. apply Forall_forall.
    intros [k f] Hin. apply Forall_forall. intros d Hd.
    apply fill_frame_index in Hd. destruct Hd as [Hd|[Hts Hidx]];
      [now left|].
    right. exists k, f. apply in_combine_seq in Hin.
    rewrite Nat.sub_0_r in Hin. now destruct Hin.
  - apply Forall_forall. intros d Hd. now left.
Qed.

End GapFillIndex.

(** X10.  For every number model: each sample of a channel of
    [analyzeAngles] is either a raw sample, which carries the index of its
    frame in [analysis.frames], or a gap-filled sample, which carries the
    timestamp of a usable frame and, as its [frameIndex], the position of that
    frame among the usable frames (not its index in [analysis.frames]). *)
Theorem gap_filled_samples_are_numbered_among_usable_frames
    (A : Type) (N : JSNumber A) (calc : Landmarks A -> option A)
    (frames : list (FrameAnalysis A)) :
  Forall (fun d =>
            In d (raw_channel calc frames) \/
            exists pos k frame,
              nth_error (usable_frames frames) pos = Some (k, frame) /\
              timestamp d = f_timestamp frame /\
              frameIndex d = Z.of_nat pos)
         (analyzeChannel calc frames).
Proof.
  unfold analyzeChannel.
  eapply Forall_impl;
    [|apply (fillAngleDataGaps_index (raw_channel calc frames)
               (map snd (usable_frames frames)))].
  cbv beta. intros d [Hd|(pos & frame & Hn & Hts & Hidx)]; [now left|].
  right. rewrite nth_error_map in Hn.
  destruct (nth_error (usable_frames frames) pos) as [[k f]|] eqn:En;
    [|discriminate].
  cbn in Hn. injection Hn as ->. now exists pos, k, frame.
Qed.


(** ** The outcomes of [computeJumpMetrics] *)

Section EngineOutcomes.
Context {A : Type} `{JSNumber A}.

(** Every run of [computeJumpMetrics] ends in one of the four errors the
    source throws, or in a bundle built from two analysis frames. *)
Lemma computeJumpMetrics_cases (analysis : option (VideoAnalysis A))
    (manualMarkers : option (ManualMarkers A)) (videoType : VideoType)
    (angleAnalysis : option (AngleAnalysis A)) :
  (exists e, computeJumpMetrics analysis manualMarkers videoType angleAnalysis
             = inl e /\ e <> TypeError) \/
  (exists a m takeoff landing takeoffData landingData,
     analysis = Some a /\ manualMarkers = Some m /\
     resolves a m videoType takeoff landing /\ (takeoff < landing)%Z /\
     nth_error (frames a) (Z.to_nat takeoff) = Some takeoffData /\
     nth_error (frames a) (Z.to_nat landing) = Some landingData /\
     computeJumpMetrics analysis manualMarkers videoType angleAnalysis
     = inr {| airTime := Some (f_timestamp landingData - f_timestamp takeoffData)%js;
              takeoffFrame := Some takeoff;
              landingFrame := Some landing;
              rotations :=
                extractRotationFromAngleAnalysis angleAnalysis takeoff landing;
              maxHeight :=
                calculateJumpHeight
                  (f_timestamp landingData - f_timestamp takeoffData)%js |}).
Proof.
  unfold computeJumpMetrics.
  destruct analysis as [a|]; [|left; eexists; split; [reflexivity|discriminate]].
  destruct (isComplete a) eqn:Hc; cbn [negb];
    [|left; eexists; split; [reflexivity|discriminate]].
  destruct manualMarkers as [m|];
    [|left; eexists; split; [reflexivity|discriminate]].
  cbv zeta.
  destruct (m_takeoffFrame (markers_of m videoType)) as [rawT|] eqn:Ht;
    [|left; eexists; split; [reflexivity|discriminate]].
  destruct (m_landingFrame (markers_of m videoType)) as [rawL|] eqn:Hl;
    [|left; eexists; split; [reflexivity|discriminate]].
  destruct (findClosestFrameByTime (frames a) (rawT / '30)%js)
    as [takeoff|] eqn:Hft;
    [|left; eexists; split; [reflexivity|discriminate]].
  destruct (findClosestFrameByTime (frames a) (rawL / '30)%js)
    as [landing|] eqn:Hfl;
    [|left; eexists; split; [reflexivity|discriminate]].
  destruct (Z.geb_spec takeoff landing) as [Hge|Hlt];
    [left; eexists; split; [reflexivity|discriminate]|].
  destruct (nth_error_in_range (frames a)
              (findClosestFrameByTime_bound _ _ Hft)) as [td Htd].
  destruct (nth_error_in_range (frames a)
              (findClosestFrameByTime_bound _ _ Hfl)) as [ld Hld].
  rewrite Htd, Hld. right. exists a, m, takeoff, landing, td, ld.
  repeat split; try assumption; try reflexivity.
  now exists rawT, rawL.
Qed.

End EngineOutcomes.

(** X11.  For every number model: [computeJumpMetrics] returns a bundle
    exactly when the analysis and the markers are given and the markers
    resolve to analysis frames [takeoff < landing]; and it never reads a frame
    outside the frame sequence, whatever the arguments. *)
Theorem metrics_are_returned_iff_markers_resolve_in_order
    (A : Type) (N : JSNumber A) (analysis : option (VideoAnalysis A))
    (manualMarkers : option (ManualMarkers A)) (videoType : VideoType)
    (angleAnalysis : option (AngleAnalysis A)) :
  ((exists metrics,
      computeJumpMetrics analysis manualMarkers videoType angleAnalysis
      = inr metrics) <->
   (exists a m takeoff landing,
      analysis = Some a /\ manualMarkers = Some m /\
      resolves a m videoType takeoff landing /\ (takeoff < landing)%Z)) /\
  computeJumpMetrics analysis manualMarkers videoType angleAnalysis
    <> inl TypeError.
Proof.
  destruct (computeJumpMetrics_cases analysis manualMarkers videoType
              angleAnalysis)
    as [(e & E & He)|(a & m & t & l & td & ld & -> & -> & Hr & Hlt & _ & _ & E)].
  - split; [split|].
    + intros [metrics Em]. congruence.
    + intros (a & m & t & l & -> & -> & Hr & Hlt).
      destruct (computeJumpMetrics_resolved angleAnalysis Hr Hlt)
        as (td & ld & _ & _ & E'). congruence.
    + congruence.
  - split; [split|].
    + intros _. now exists a, m, t, l.
    + intros _. eexists. exact E.
    + congruence.
Qed.

(** X12.  For every number model: every bundle [computeJumpMetrics] returns
    has its take-off and landing frames set, inside the frame sequence and in
    order; its air time is the difference of the timestamps of these two
    frames, and its height is [calculateJumpHeight] of that air time. *)
Theorem returned_metrics_are_well_formed
    (A : Type) (N : JSNumber A) (analysis : VideoAnalysis A)
    (manualMarkers : option (ManualMarkers A)) (videoType : VideoType)
    (angleAnalysis : option (AngleAnalysis A)) (metrics : JumpMetrics A) :
  computeJumpMetrics (Some analysis) manualMarkers videoType angleAnalysis
    = inr metrics ->
  exists takeoff landing takeoffData landingData,
    takeoffFrame metrics = Some takeoff /\
    landingFrame metrics = Some landing /\
    (0 <= takeoff < landing)%Z /\
    (landing < Z.of_nat (length (frames analysis)))%Z /\
    nth_error (frames analysis) (Z.to_nat takeoff) = Some takeoffData /\
    nth_error (frames analysis) (Z.to_nat landing) = Some landingData /\
    airTime metrics
      = Some (f_timestamp landingData - f_timestamp takeoffData)%js /\
    maxHeight metrics
      = calculateJumpHeight
          (f_timestamp landingData - f_timestamp takeoffData)%js.
Proof.
  intros Em.
  destruct (computeJumpMetrics_cases (Some analysis) manualMarkers videoType
              angleAnalysis)
    as [(e & E & He)|(a & m & t & l & td & ld & Ea & -> & Hr & Hlt & Htd & Hld & E)];
    [congruence|].
  injection Ea as <-. rewrite E in Em. injection Em as <-.
  exists t, l, td, ld. cbn [takeoffFrame landingFrame airTime maxHeight].
  destruct Hr as (_ & rawT & rawL & _ & _ & Hft & Hfl).
  apply findClosestFrameByTime_bound in Hft, Hfl.
  repeat split; try assumption; try reflexivity; lia.
Qed.

Lemma returned_metrics_are_well_formed_witness :
  exists takeoff landing takeoffData landingData,
    Some 3%Z = Some takeoff /\
    Some 6%Z = Some landing /\
    (0 <= takeoff < landing)%Z /\
    (landing < Z.of_nat (length (frames ten_frames)))%Z /\
    nth_error (frames ten_frames) (Z.to_nat takeoff) = Some takeoffData /\
    nth_error (frames ten_frames) (Z.to_nat landing) = Some landingData /\
    Some (decimal 6 30 - decimal 3 30)%js
      = Some (f_timestamp landingData - f_timestamp takeoffData)%js /\
    calculateJumpHeight (decimal 6 30 - decimal 3 30)%js
      = calculateJumpHeight
          (f_timestamp landingData - f_timestamp takeoffData)%js.
Proof.
  apply (@returned_metrics_are_well_formed PrimFloat.float _ ten_frames
           (Some (markers_at 3 6)) Reference None
           {| airTime := Some (decimal 6 30 - decimal 3 30)%js;
              takeoffFrame := Some 3%Z; landingFrame := Some 6%Z;
              rotations := None;
              maxHeight := calculateJumpHeight (decimal 6 30 - decimal 3 30)%js |}).
  vm_compute. reflexivity.
Defined.


(** ** The frame closest to a time *)

Section ClosestFrame.
Local Open Scope R_scope.

Lemma closest_body_inv (d0 : FrameAnalysis R) (frames : list (FrameAnalysis R))
    (t : R) (len : nat) :
  forall k st,
    closest_inv d0 frames t k st ->
    closest_inv d0 frames t (k + len)
      (fold_left (fun s i => closest_body d0 frames t i s) (seq k len) st).
Proof.
  induction len as [|len IH]; intros k [c m] Hinv.
  - now rewrite Nat.add_0_r.
  - cbn [seq fold_left]. replace (k + S len)%nat with (S k + len)%nat by lia.
    apply IH. destruct Hinv as (Hc & Hm & Hall). cbn [fst snd] in *.
    unfold closest_body. exact_arith.
    destruct (Rlt_dec _ m) as [Hlt|Hge]; unfold closest_inv; cbn [fst snd].
    + split; [lia|]. split; [reflexivity|]. intros j Hj.
      destruct (Nat.eq_dec j k) as [->|Hne]; [split; [lra | lia]|].
      destruct (Hall j ltac:(lia)) as [Hle _]. split; intros; lra.
    + split; [lia|]. split; [exact Hm|]. intros j Hj.
      destruct (Nat.eq_dec j k) as [->|Hne]; [split; [lra | lia]|].
      apply Hall. lia.
Qed.

Lemma findClosestFrameByTime_nearest
    (frames : list (FrameAnalysis R)) (t : R) (i : Z) :
  findClosestFrameByTime frames t = Some i ->
  exists f,
    nth_error frames (Z.to_nat i) = Some f /\
    forall j g, nth_error frames j = Some g ->
      Rabs (f_timestamp f - t) <= Rabs (f_timestamp g - t) /\
      ((j < Z.to_nat i)%nat ->
       Rabs (f_timestamp f - t) < Rabs (f_timestamp g - t)).
Proof.
  intros E.
  destruct (nth_error_in_range frames (findClosestFrameByTime_bound _ _ E))
    as [f Hf].
  exists f. split; [exact Hf|].
  unfold findClosestFrameByTime in E. destruct frames as [|f0 rest];
    [discriminate|].
  cbv zeta in E. injection E as <-. unfold for_range in *.
  rewrite Nat2Z.id in *.
  pose proof (@closest_body_inv f0 (f0 :: rest) t (length (f0 :: rest) - 1)
                1%nat (0%nat, Math_abs (f_timestamp f0 - t))) as Hinv.
  set (st := fold_left _ _ _) in *.
  destruct Hinv as (Hc & Hm & Hall).
  { unfold closest_inv. cbn [fst snd nth]. split; [lia|].
    split; [reflexivity|]. intros j Hj. replace j with 0%nat by lia.
    cbn [nth]. exact_arith. split; [lra | lia]. }
  replace (1 + (length (f0 :: rest) - 1))%nat with (length (f0 :: rest)) in *
    by (cbn [length]; lia).
  rewrite (nth_error_nth _ _ f0 Hf) in Hm.
  intros j g Hg.
  assert (Hj : (j < length (f0 :: rest))%nat).
  { apply nth_error_Some. congruence. }
  specialize (Hall j Hj). rewrite (nth_error_nth _ _ f0 Hg) in Hall.
  rewrite <- Hm. exact Hall.
Qed.

End ClosestFrame.

(** X13.  In exact arithmetic: the index [findClosestFrameByTime] returns
    is inside the frame sequence, and it is that of a frame whose timestamp is
    nearest to the target time, and the earliest such frame: every frame is at
    least as far from the target, and every earlier frame is strictly
    farther. *)
Theorem closest_frame_is_the_earliest_nearest
    (frames : list (FrameAnalysis R)) (targetTime : R) (i : Z) :
  findClosestFrameByTime frames targetTime = Some i ->
  (0 <= i < Z.of_nat (length frames))%Z /\
  exists f,
    nth_error frames (Z.to_nat i) = Some f /\
    forall j g, nth_error frames j = Some g ->
      (Rabs (f_timestamp f - targetTime) <= Rabs (f_timestamp g - targetTime))%R /\
      ((j < Z.to_nat i)%nat ->
       (Rabs (f_timestamp f - targetTime) < Rabs (f_timestamp g - targetTime))%R).
Proof.
  intros E. split.
  - exact (findClosestFrameByTime_bound _ _ E).
  - exact (findClosestFrameByTime_nearest _ _ E).
Qed.

Lemma closest_frame_is_the_earliest_nearest_witness :
  (0 <= 1 < Z.of_nat (length knee_dropout))%Z /\
  exists f,
    nth_error knee_dropout (Z.to_nat 1) = Some f /\
    forall j g, nth_error knee_dropout j = Some g ->
      (Rabs (f_timestamp f - 1 / 30) <= Rabs (f_timestamp g - 1 / 30))%R /\
      ((j < Z.to_nat 1)%nat ->
       (Rabs (f_timestamp f - 1 / 30) < Rabs (f_timestamp g - 1 / 30))%R).
Proof.
  apply (@closest_frame_is_the_earliest_nearest knee_dropout (1 / 30)%R 1%Z).
  unfold findClosestFrameByTime, for_range, closest_body, knee_dropout.
  cbn [length seq Nat.sub fold_left nth f_timestamp fst]. exact_arith.
  unfold Rabs.
  repeat match goal with
         | |- context [Rcase_abs ?x] => destruct (Rcase_abs x); try lra
         end.
  repeat match goal with
         | |- context [Rlt_dec ?x ?y] => destruct (Rlt_dec x y); try lra
         end.
  reflexivity.
Defined.


(** ** Air time and height of a returned bundle *)

Lemma StronglySorted_nth_error {T : Type} (R : T -> T -> Prop) (l : list T) :
  StronglySorted R l ->
  forall i j x y, (i < j)%nat ->
    nth_error l i = Some x -> nth_error l j = Some y -> R x y.
Proof.
  induction 1 as [|a l Hs IH Ha]; intros i j x y Hij Hi Hj.
  - now destruct i.
  - destruct j as [|j]; [lia|]. cbn [nth_error] in Hj.
    destruct i as [|i].
    + cbn in Hi. injection Hi as <-. rewrite Forall_forall in Ha.
      apply Ha. now apply nth_error_In in Hj.
    + cbn [nth_error] in Hi. apply (IH i j); [lia | assumption | assumption].
Qed.

(** X14.  In exact arithmetic: when the timestamps of the analysis frames
    strictly increase, every bundle [computeJumpMetrics] returns has a
    positive air time [t] and the height [9.81 * t * t / 8]; the height is
    never null. *)
Theorem returned_air_time_is_positive (analysis : VideoAnalysis R)
    (manualMarkers : option (ManualMarkers R)) (videoType : VideoType)
    (angleAnalysis : option (AngleAnalysis R)) (metrics : JumpMetrics R) :
  timestamps_increase (frames analysis) ->
  computeJumpMetrics (Some analysis) manualMarkers videoType angleAnalysis
    = inr metrics ->
  exists t : R,
    airTime metrics = Some t /\ (0 < t)%R /\
    maxHeight metrics = Some (981 / 100 * t * t / 8)%R.
Proof.
  intros Hs Em.
  destruct (computeJumpMetrics_cases (Some analysis) manualMarkers videoType
              angleAnalysis)
    as [(e & E & He)|(a & m & t & l & td & ld & Ea & -> & Hr & Hlt & Htd & Hld & E)];
    [congruence|].
  injection Ea as <-. rewrite E in Em. injection Em as <-.
  cbn [airTime maxHeight]. exact_arith.
  destruct Hr as (_ & rawT & rawL & _ & _ & Hft & Hfl).
  apply findClosestFrameByTime_bound in Hft, Hfl.
  assert (Hlt' : (f_timestamp td < f_timestamp ld)%R).
  { apply (StronglySorted_nth_error Hs (i := Z.to_nat t) (j := Z.to_nat l));
      [lia | assumption | assumption]. }
  exists (f_timestamp ld - f_timestamp td)%R.
  split; [reflexivity|]. split; [lra|].
  apply calculateJumpHeight_exact. lra.
Qed.

Lemma returned_air_time_is_positive_witness :
  exists t : R,
    Some (2 / 30 - 0)%R = Some t /\ (0 < t)%R /\
    calculateJumpHeight (2 / 30 - 0)%R = Some (981 / 100 * t * t / 8)%R.
Proof.
  apply (@returned_air_time_is_positive knee_dropout_analysis
           (Some (markers_at 0 2)) Reference None
           {| airTime := Some (2 / 30 - 0)%R;
              takeoffFrame := Some 0%Z; landingFrame := Some 2%Z;
              rotations := None;
              maxHeight := calculateJumpHeight (2 / 30 - 0)%R |}).
  - unfold timestamps_increase. cbn.
    repeat constructor; cbn [f_timestamp]; lra.
  - unfold computeJumpMetrics, findClosestFrameByTime, for_range, closest_body.
    cbn [knee_dropout_analysis knee_dropout isComplete negb markers_at
         markers_of reference m_takeoffFrame m_landingFrame frames
         length seq Nat.sub fold_left nth f_timestamp fst].
    exact_arith. unfold Rabs.
    repeat match goal with
           | |- context [Rcase_abs ?x] => destruct (Rcase_abs x); try lra
           end.
    repeat match goal with
           | |- context [Rlt_dec ?x ?y] => destruct (Rlt_dec x y); try lra
           end.
    reflexivity.
Defined.


(** ** From the frames to the stored rotation count *)

Section StoredRotation.
Context {A : Type} `{JSNumber A}.

Lemma cumulative_indices (data : list (AngleData A)) :
  calculateCumulativeRotation data = [] \/
  map (fun d => frameIndex d) (calculateCumulativeRotation data)
  = map (fun d => frameIndex d) data.
Proof.
  destruct data as [|d0 [|d1 rest]]; [now left | now left | right].
  pose proof (f_equal (map snd)
                (eq_trans (f_equal (map labels)
                             (calculateCumulativeRotation_pairs d0 d1 rest))
                          (pass2_labels _ _ _ _ _ _))) as E.
  rewrite !map_app, !map_map in E. exact E.
Qed.

Lemma frame_ordered_indices (l : list (AngleData A)) :
  StronglySorted Z.le (map (fun d => frameIndex d) l) -> frame_ordered l.
Proof.
  unfold frame_ordered. induction l as [|d l IH]; intros Hs; [constructor|].
  cbn [map] in Hs. inversion Hs as [|? ? Hs' Hall]; subst.
  constructor; [now apply IH|]. now rewrite Forall_map in Hall.
Qed.

Lemma combine_seq_sorted {X : Type} (l : list X) :
  forall s,
    StronglySorted (fun x y => (fst x < fst y)%nat)
                   (combine (seq s (length l)) l) /\
    Forall (fun x => (s <= fst x < s + length l)%nat)
           (combine (seq s (length l)) l).
Proof.
  induction l as [|a l IH]; intros s; cbn [length seq combine];
    [split; constructor|].
  destruct (IH (S s)) as [Hs Hb]. split.
  - constructor; [exact Hs|]. eapply Forall_impl; [|exact Hb].
    cbn. intros x Hx. lia.
  - constructor; [cbn; lia|]. eapply Forall_impl; [|exact Hb].
    cbn. intros x Hx. lia.
Qed.

Lemma StronglySorted_filter {X : Type} (R : X -> X -> Prop) (p : X -> bool)
    (l : list X) :
  StronglySorted R l -> StronglySorted R (filter p l).
Proof.
  induction 1 as [|a l Hs IH Ha]; cbn [filter]; [constructor|].
  destruct (p a); [|exact IH]. constructor; [exact IH|].
  rewrite Forall_forall in *. intros x Hx. apply Ha.
  now apply filter_In in Hx.
Qed.

Lemma usable_indices_sorted (frames : list (FrameAnalysis A)) :
  StronglySorted Z.le (usable_indices frames) /\
  Forall (fun i => (i <= Z.of_nat (length frames) - 1)%Z) (usable_indices frames).
Proof.
  unfold usable_indices, usable_frames.
  destruct (combine_seq_sorted frames 0) as [Hs Hb].
  set (p := fun '(_, f) => usable f).
  apply (StronglySorted_filter p) in Hs.
  assert (Hb' : Forall (fun x => (fst x < length frames)%nat)
                  (filter p (combine (seq 0 (length frames)) frames))).
  { rewrite Forall_forall in *. intros x Hx. apply filter_In in Hx.
    destruct Hx as [Hx _]. specialize (Hb x Hx). cbn in Hb. lia. }
  clearbody p. split.
  - induction Hs as [|a l Hs' IH Ha]; cbn [map]; constructor.
    + apply IH. now inversion Hb'.
    + rewrite Forall_map. eapply Forall_impl; [|exact Ha].
      cbn. intros x Hx. lia.
  - rewrite Forall_map. eapply Forall_impl; [|exact Hb'].
    cbn. intros x Hx. lia.
Qed.

End StoredRotation.

(** X15.  For every number model: when both shoulders are present in every
    frame that has world landmarks, and the markers resolve to analysis frames
    [takeoff < landing], the rotation count stored for the video is the window
    rotation count, from frame [takeoff - 2] through frame [landing + 2], of
    the cumulative rotation of the raw shoulder-rotation series. *)
Theorem stored_rotation_is_window_count_of_raw_series
    (A : Type) (N : JSNumber A) (T : JSTrig A) (analysis : VideoAnalysis A)
    (manualMarkers : ManualMarkers A) (videoType : VideoType)
    (takeoff landing : Z) :
  always_defined calculateShoulderRotation (frames analysis) ->
  resolves analysis manualMarkers videoType takeoff landing ->
  (takeoff < landing)%Z ->
  rotations (storedMetrics analysis manualMarkers videoType)
  = window_rotation_count
      (calculateCumulativeRotation
         (raw_channel calculateShoulderRotation (frames analysis)))
      (Z.of_nat (length (frames analysis)) - 1) takeoff landing.
Proof.
  intros Hdef Hr Hlt. unfold storedMetrics. cbv zeta.
  destruct (computeJumpMetrics_resolved (Some (analyzeAngles analysis)) Hr Hlt)
    as (td & ld & _ & _ & ->).
  cbn [rotations].
  assert (Hall : forall k f, In (k, f) (usable_frames (frames analysis)) ->
            exists lms a, worldLandmarks f = Some lms /\
                          calculateShoulderRotation lms = Some a).
  { intros k f Hin. apply usable_frames_in in Hin.
    destruct Hin as [Hin [lms Hl]]. exists lms.
    destruct (calculateShoulderRotation lms) as [a|] eqn:Ha; [now exists a|].
    now destruct (Hdef f lms Hin Hl). }
  destruct (raw_channel_all_defined calculateShoulderRotation
              (usable_frames (frames analysis)) Hall) as [Hidx _].
  fold (raw_channel calculateShoulderRotation (frames analysis)) in Hidx.
  fold (usable_indices (frames analysis)) in Hidx.
  assert (Eraw : shoulderRotation (analyzeAngles analysis)
                 = raw_channel calculateShoulderRotation (frames analysis)).
  { cbn [analyzeAngles shoulderRotation]. unfold analyzeChannel.
    apply fillAngleDataGaps_full.
    apply (f_equal (@length _)) in Hidx. unfold usable_indices in Hidx.
    rewrite !length_map in *. lia. }
  pose proof (usable_indices_sorted (frames analysis)) as [Hs Hb].
  rewrite <- Hidx in Hs, Hb.
  set (raw := raw_channel calculateShoulderRotation (frames analysis)) in *.
  assert (Ecum : shoulderCumulativeRotation (analyzeAngles analysis)
                 = calculateCumulativeRotation raw).
  { rewrite analyzeAngles_tracked, Eraw. reflexivity. }
  rewrite <- Ecum.
  apply extractRotation_window; rewrite Ecum.
  - destruct (cumulative_indices raw) as [->|E]; [constructor|].
    apply frame_ordered_indices. now rewrite E.
  - destruct (cumulative_indices raw) as [->|E]; [constructor|].
    rewrite <- E, Forall_map in Hb. exact Hb.
Qed.

Lemma stored_rotation_is_window_count_of_raw_series_witness :
  rotations (storedMetrics turning_shoulders (markers_at 0 2) Reference)
  = window_rotation_count
      (calculateCumulativeRotation
         (raw_channel calculateShoulderRotation (frames turning_shoulders)))
      (Z.of_nat (length (frames turning_shoulders)) - 1) 0 2.
Proof.
  apply (@stored_rotation_is_window_count_of_raw_series R _ _ turning_shoulders
           (markers_at 0 2) Reference 0%Z 2%Z).
  - intros f lms [<-|[<-|[<-|[]]]] [= <-]; cbn; discriminate.
  - split; [reflexivity|].
    exists ('0)%js, ('2)%js.
    repeat split;
      unfold findClosestFrameByTime, for_range, closest_body;
      cbn [turning_shoulders frames length seq Nat.sub fold_left nth
           f_timestamp fst];
      exact_arith; unfold Rabs;
      repeat match goal with
             | |- context [Rcase_abs ?x] => destruct (Rcase_abs x); try lra
             end;
      repeat match goal with
             | |- context [Rlt_dec ?x ?y] => destruct (Rlt_dec x y); try lra
             end;
      reflexivity.
  - lia.
Defined.


(** ** Frames and timestamps *)




(** ** Comparing the metrics of two videos *)

Section Compare.
Local Open Scope R_scope.

Lemma truthy_exact (v : option R) :
  truthy v = true <-> ~ missing_or_zero v.
Proof.
  unfold missing_or_zero, truthy, falsy. destruct v as [x|].
  - exact_arith.
    destruct (Req_dec_T x 0) as [->|Hx]; cbn [orb negb].
    + split; [discriminate | intros Hn; exfalso; apply Hn; now right].
    + destruct (Req_dec_T x x); [|contradiction]. cbn.
      split; [|reflexivity]. intros _ [E|E]; [discriminate|].
      injection E as E. contradiction.
  - split; [discriminate | intros Hn; exfalso; apply Hn; now left].
Qed.

Lemma compare_entry_missing (th : R) (r u : option R) :
  missing_or_zero r \/ missing_or_zero u ->
  compare_entry th r u
  = {| c_reference := r; c_user := u;
       c_difference := None; c_improvement := None |}.
Proof.
  intros Hm. unfold compare_entry.
  destruct r as [x|], u as [y|]; try reflexivity.
  destruct (truthy (Some x)) eqn:Ex, (truthy (Some y)) eqn:Ey;
    try reflexivity.
  apply truthy_exact in Ex, Ey. tauto.
Qed.


Lemma compare_entry_mirror (th : R) (r u : option R) :
  0 <= th ->
  compare_entry th u r = mirror_entry (compare_entry th r u).
Proof.
  intros Hth.
  assert (Hmiss : missing_or_zero r \/ missing_or_zero u ->
            compare_entry th u r = mirror_entry (compare_entry th r u)).
  { intros Hm.
    rewrite (compare_entry_missing th (r := u) (u := r)) by tauto.
    rewrite (compare_entry_missing th Hm). reflexivity. }
  destruct r as [x|]; [|apply Hmiss; left; now left].
  destruct u as [y|]; [|apply Hmiss; right; now left].
  destruct (Req_dec_T x 0) as [->|Hx]; [apply Hmiss; left; now right|].
  destruct (Req_dec_T y 0) as [->|Hy]; [apply Hmiss; right; now right|].
  clear Hmiss. unfold compare_entry.
    assert (Ex : truthy (Some x) = true).
    { apply truthy_exact. intros [E|E]; [discriminate|]. now injection E. }
    assert (Ey : truthy (Some y) = true).
    { apply truthy_exact. intros [E|E]; [discriminate|]. now injection E. }
    rewrite Ex, Ey. cbn [andb]. cbv zeta. unfold mirror_entry.
    cbn [c_reference c_user c_difference c_improvement option_map].
    exact_arith. replace (- (y - x)) with (x - y) by lra.
    destruct (Rlt_dec th (x - y)), (Rlt_dec (x - y) (- th)),
             (Rlt_dec th (y - x)), (Rlt_dec (y - x) (- th));
      try reflexivity; exfalso; lra.
Qed.

End Compare.

(** X17.  In exact arithmetic: comparing with the two videos swapped gives
    the mirrored comparison: in each entry the two values change places, the
    difference changes sign, and better and worse change places. *)
Theorem swapped_comparison_is_mirrored (referenceMetrics userMetrics : JumpMetrics R) :
  compareMetrics userMetrics referenceMetrics
  = mirror_comparison (compareMetrics referenceMetrics userMetrics).
Proof.
  unfold compareMetrics, mirror_comparison.
  cbn [cmp_airTime cmp_rotations cmp_height].
  rewrite <- !compare_entry_mirror; [reflexivity|..];
    unfold decimal; exact_arith; lra.
Qed.



(** ** Smoothing *)

Section Smoothing.
Context {A : Type} `{JSNumber A}.

Lemma fold_left_push {X Y : Type} (f : X -> Y) (l : list X) :
  forall acc, fold_left (fun s i => s ++ [f i]) l acc = acc ++ map f l.
Proof.
  induction l as [|x l IH]; intros acc; cbn [fold_left map].
  - now rewrite app_nil_r.
  - rewrite IH, <- app_assoc. reflexivity.
Qed.

Lemma map_nth_seq {X : Type} (l : list X) (d : X) :
  map (fun i => nth i l d) (seq 0 (length l)) = l.
Proof.
  apply (nth_ext _ _ d d).
  - now rewrite length_map, length_seq.
  - intros n Hn. rewrite length_map, length_seq in Hn.
    rewrite (nth_indep _ _ (nth 0 l d))
      by (now rewrite length_map, length_seq).
    rewrite (map_nth (fun i => nth i l d) (seq 0 (length l)) 0%nat n).
    now rewrite seq_nth.
Qed.

(** The loop of [smoothAngleData] pushes one sample per index. *)
Lemma smoothAngleData_map (angleData : list (AngleData A)) (windowSize : nat)
    (d0 : AngleData A) :
  (windowSize <= length angleData)%nat ->
  smoothAngleData angleData windowSize
  = map (smooth_at angleData windowSize d0) (seq 0 (length angleData)).
Proof.
  intros Hw. unfold smoothAngleData.
  destruct (Nat.ltb_spec (length angleData) windowSize); [lia|].
  destruct angleData as [|d1 rest]; [reflexivity|].
  unfold for_range. rewrite Nat.sub_0_r, fold_left_push. cbn [app].
  apply map_ext_in. intros i Hi. apply in_seq in Hi.
  unfold smooth_at. cbv zeta.
  now rewrite (nth_indep (d1 :: rest) d1 d0) by lia.
Qed.

Lemma smoothAngleData_labels (angleData : list (AngleData A))
    (windowSize : nat) :
  map labels (smoothAngleData angleData windowSize) = map labels angleData.
Proof.
  destruct (Nat.ltb_spec (length angleData) windowSize) as [Hlt|Hge].
  - unfold smoothAngleData.
    now destruct (Nat.ltb_spec (length angleData) windowSize); [|lia].
  - destruct angleData as [|d0 rest] eqn:E.
    + unfold smoothAngleData. now destruct (_ <? _)%nat.
    + rewrite <- E in *. rewrite (smoothAngleData_map _ d0 Hge), map_map.
      rewrite <- (map_nth_seq angleData d0) at 2. rewrite map_map.
      reflexivity.
Qed.

End Smoothing.

(** X19.  For every number model and every window size: the smoothed series
    has one sample per input sample, with the same timestamps and frame
    indices, in the same order. *)
Theorem smoothing_keeps_labels (A : Type) (N : JSNumber A)
    (angleData : list (AngleData A)) (windowSize : nat) :
  map labels (smoothAngleData angleData windowSize) = map labels angleData /\
  length (smoothAngleData angleData windowSize) = length angleData.
Proof.
  pose proof (smoothAngleData_labels angleData windowSize) as E.
  split; [exact E|].
  apply (f_equal (@length _)) in E. now rewrite !length_map in E.
Qed.

Section SmoothingRange.
Local Open Scope R_scope.



End SmoothingRange.




(** ** The geometry of the angle between two vectors *)

Section AngleGeometry.
Local Open Scope R_scope.

Lemma magnitude_sq (v : Vector3 R) :
  magnitude v * magnitude v = dot v v.
Proof.
  unfold magnitude, dot. exact_arith. apply sqrt_sqrt. nra.
Qed.

Lemma magnitude_nonneg (v : Vector3 R) : 0 <= magnitude v.
Proof. unfold magnitude. exact_arith. apply sqrt_pos. Qed.

Lemma magnitude_scale (k : R) (v : Vector3 R) :
  magnitude (scale k v) = Rabs k * magnitude v.
Proof.
  unfold magnitude, scale. cbn [vx vy vz]. exact_arith.
  replace (k * vx v * (k * vx v) + k * vy v * (k * vy v)
           + k * vz v * (k * vz v))
    with (k² * (vx v * vx v + vy v * vy v + vz v * vz v))
    by (unfold Rsqr; ring).
  rewrite sqrt_mult_alt by apply Rle_0_sqr. now rewrite sqrt_Rsqr_abs.
Qed.

Lemma dot_scale (k : R) (v1 v2 : Vector3 R) :
  dot (scale k v1) v2 = k * dot v1 v2.
Proof. unfold dot, scale. cbn [vx vy vz]. ring. Qed.

(** The angle read through the cosine it is computed from. *)
Lemma calculateAngleBetweenVectors_cosine (v1 v2 : Vector3 R) :
  calculateAngleBetweenVectors v1 v2
  = if Req_dec_T (magnitude v1 * magnitude v2) 0 then 0
    else acos (Rmax (-1) (Rmin 1 (dot v1 v2 / (magnitude v1 * magnitude v2))))
         * 180 / PI.
Proof.
  unfold calculateAngleBetweenVectors. cbv zeta.
  fold (magnitude v1) (magnitude v2). exact_arith. fold (dot v1 v2).
  destruct (Req_dec_T (magnitude v1) 0) as [E1|E1]; cbn [orb].
  - destruct (Req_dec_T _ _) as [_|Hn]; [reflexivity|].
    exfalso. apply Hn. rewrite E1. ring.
  - destruct (Req_dec_T (magnitude v2) 0) as [E2|E2].
    + destruct (Req_dec_T _ _) as [_|Hn]; [reflexivity|].
      exfalso. apply Hn. rewrite E2. ring.
    + destruct (Req_dec_T _ _) as [E|_]; [|reflexivity].
      apply Rmult_integral in E. tauto.
Qed.

Lemma clamp_opp (c : R) :
  Rmax (-1) (Rmin 1 (- c)) = - Rmax (-1) (Rmin 1 c).
Proof.
  unfold Rmin. destruct (Rle_dec 1 (- c)), (Rle_dec 1 c);
    unfold Rmax; repeat destruct (Rle_dec _ _); lra.
Qed.

Lemma angle_symmetric (v1 v2 : Vector3 R) :
  calculateAngleBetweenVectors v1 v2 = calculateAngleBetweenVectors v2 v1.
Proof.
  rewrite !calculateAngleBetweenVectors_cosine.
  replace (magnitude v2 * magnitude v1) with (magnitude v1 * magnitude v2)
    by ring.
  replace (dot v2 v1) with (dot v1 v2) by (unfold dot; ring).
  reflexivity.
Qed.

Lemma angle_scale_pos (k : R) (v1 v2 : Vector3 R) :
  0 < k ->
  calculateAngleBetweenVectors (scale k v1) v2
  = calculateAngleBetweenVectors v1 v2.
Proof.
  intros Hk. rewrite !calculateAngleBetweenVectors_cosine.
  rewrite magnitude_scale, dot_scale, (Rabs_right k) by lra.
  destruct (Req_dec_T (magnitude v1 * magnitude v2) 0) as [E|E].
  - destruct (Req_dec_T _ _) as [_|Hn]; [reflexivity|].
    exfalso. apply Hn. rewrite Rmult_assoc, E. ring.
  - destruct (Req_dec_T _ _) as [E'|_].
    + exfalso. rewrite Rmult_assoc in E'. apply Rmult_integral in E'.
      destruct E'; [lra | contradiction].
    + replace (k * dot v1 v2 / (k * magnitude v1 * magnitude v2))
        with (dot v1 v2 / (magnitude v1 * magnitude v2)); [reflexivity|].
      field. split.
      * intros E2. apply E. rewrite E2. ring.
      * split; [|lra]. intros E1. apply E. rewrite E1. ring.
Qed.

Lemma angle_scale_neg (k : R) (v1 v2 : Vector3 R) :
  k < 0 -> magnitude v1 <> 0 -> magnitude v2 <> 0 ->
  calculateAngleBetweenVectors (scale k v1) v2
  = 180 - calculateAngleBetweenVectors v1 v2.
Proof.
  intros Hk H1 H2. rewrite !calculateAngleBetweenVectors_cosine.
  rewrite magnitude_scale, dot_scale, (Rabs_left k) by lra.
  destruct (Req_dec_T (magnitude v1 * magnitude v2) 0) as [E|E].
  { apply Rmult_integral in E. tauto. }
  destruct (Req_dec_T _ _) as [E'|_].
  { exfalso. rewrite Rmult_assoc in E'. apply Rmult_integral in E'.
    destruct E'; [lra | contradiction]. }
  replace (k * dot v1 v2 / (- k * magnitude v1 * magnitude v2))
    with (- (dot v1 v2 / (magnitude v1 * magnitude v2)))
    by (field; repeat split; lra).
  rewrite clamp_opp, acos_opp. pose proof PI_RGT_0. field. lra.
Qed.

Lemma angle_self (v : Vector3 R) :
  magnitude v <> 0 -> calculateAngleBetweenVectors v v = 0.
Proof.
  intros Hm. rewrite calculateAngleBetweenVectors_cosine.
  destruct (Req_dec_T _ _) as [E|_].
  { apply Rmult_integral in E. tauto. }
  rewrite <- magnitude_sq.
  replace (magnitude v * magnitude v / (magnitude v * magnitude v)) with 1
    by (field; exact Hm).
  replace (Rmax (-1) (Rmin 1 1)) with 1.
  - rewrite acos_1. unfold Rdiv. ring.
  - unfold Rmin. destruct (Rle_dec _ _); unfold Rmax;
      destruct (Rle_dec _ _); lra.
Qed.


Lemma kneeFlexion_collinear (hipIdx kneeIdx ankleIdx : nat)
    (landmarks : Landmarks R) (hip knee ankle : PoseLandmark R) (k : R) :
  0 < k -> magnitude (vector_from knee hip) <> 0 ->
  landmark landmarks hipIdx = Some hip ->
  landmark landmarks kneeIdx = Some knee ->
  landmark landmarks ankleIdx = Some ankle ->
  (vector_from knee ankle = scale (- k) (vector_from knee hip) ->
   kneeFlexion hipIdx kneeIdx ankleIdx landmarks = Some 0) /\
  (vector_from knee ankle = scale k (vector_from knee hip) ->
   kneeFlexion hipIdx kneeIdx ankleIdx landmarks = Some 180).
Proof.
  intros Hk Hm Hhip Hknee Hankle. unfold kneeFlexion.
  rewrite Hhip, Hknee, Hankle. cbv zeta. split; intros ->;
    rewrite angle_symmetric.
  - rewrite angle_scale_neg, angle_self by (assumption || lra).
    exact_arith. f_equal. unfold Rmax. destruct (Rle_dec _ _); lra.
  - rewrite angle_scale_pos, angle_self by (assumption || lra).
    exact_arith. f_equal. unfold Rmax. destruct (Rle_dec _ _); lra.
Qed.

End AngleGeometry.





(** A straight left leg, from the hip down through knee and ankle, has
    flexion 0. *)
Example straight_leg_has_no_flexion :
  calculateLeftKneeFlexion (straight_leg 2) = Some 0%R.
Proof.
  apply (@kneeFlexion_collinear LEFT_HIP LEFT_KNEE LEFT_ANKLE (straight_leg 2)
           (mkPoseLandmark 0%R 0%R None None)
           (mkPoseLandmark 0%R 1%R None None)
           (mkPoseLandmark 0%R 2%R None None) 1%R); try reflexivity.
  - lra.
  - unfold magnitude, vector_from, z_or_0. cbn [vx vy vz lx ly lz]. exact_arith.
    intros E. apply sqrt_eq_0 in E; lra.
  - unfold vector_from, scale, z_or_0. cbn [vx vy vz lx ly lz]. exact_arith.
    f_equal; lra.
Qed.


(** ** The marker-based service *)

(** X23.  In exact arithmetic, whatever [calculateRotations] computes: the
    marker-based [computeJumpMetrics] returns the all-null bundle as soon as
    one of the four marker fields is null or zero (a take-off marked at frame
    0 or time 0 included); otherwise the air time is landing time minus
    take-off time with no check of their order, the frames are the marker
    frames, the height is [9.81 * t * t / 8] when the air time [t] is positive
    and null when it is not, and the rotations are null unless a complete
    analysis is given. *)
Theorem marker_based_metrics
    (calculateRotations : VideoAnalysis R -> R -> R -> option R)
    (markers : ManualMarkers R) (videoType : VideoType)
    (analysis : option (VideoAnalysis R)) :
  let m := markers_of markers videoType in
  let result :=
    ManualJumpMetricsService.computeJumpMetrics calculateRotations markers
      videoType analysis in
  (missing_or_zero (m_takeoffTime m) \/ missing_or_zero (m_landingTime m) \/
   missing_or_zero (m_takeoffFrame m) \/ missing_or_zero (m_landingFrame m) ->
   result = ManualJumpMetricsService.nullBundle) /\
  (forall takeoffTime landingTime takeoffFrame landingFrame,
     m_takeoffTime m = Some takeoffTime -> takeoffTime <> 0%R ->
     m_landingTime m = Some landingTime -> landingTime <> 0%R ->
     m_takeoffFrame m = Some takeoffFrame -> takeoffFrame <> 0%R ->
     m_landingFrame m = Some landingFrame -> landingFrame <> 0%R ->
     ManualJumpMetricsService.b_airTime result
       = Some (landingTime - takeoffTime)%R /\
     ManualJumpMetricsService.b_takeoffFrame result = Some takeoffFrame /\
     ManualJumpMetricsService.b_landingFrame result = Some landingFrame /\
     ((takeoffTime < landingTime)%R ->
      ManualJumpMetricsService.b_maxHeight result
      = Some (981 / 100 * (landingTime - takeoffTime)
              * (landingTime - takeoffTime) / 8)%R) /\
     ((landingTime <= takeoffTime)%R ->
      ManualJumpMetricsService.b_maxHeight result = None) /\
     ((forall a, analysis = Some a -> isComplete a = false) ->
      ManualJumpMetricsService.b_rotations result = None)).
Proof.
  cbv zeta. unfold ManualJumpMetricsService.computeJumpMetrics. cbv zeta.
  set (m := markers_of markers videoType).
  split.
  - intros Hm.
    destruct (truthy (m_takeoffTime m)) eqn:E1; [|reflexivity].
    destruct (truthy (m_landingTime m)) eqn:E2; [|reflexivity].
    destruct (truthy (m_takeoffFrame m)) eqn:E3; [|reflexivity].
    destruct (truthy (m_landingFrame m)) eqn:E4; [|reflexivity].
    apply truthy_exact in E1, E2, E3, E4. tauto.
  - intros tt lt tf lf -> Htt -> Hlt -> Htf -> Hlf.
    assert (Hnz : forall x : R, x <> 0%R -> truthy (Some x) = true).
    { intros x Hx. apply truthy_exact. intros [E|E]; [discriminate|].
      now injection E. }
    rewrite !Hnz by assumption. cbn [negb orb].
    cbn [ManualJumpMetricsService.b_airTime
         ManualJumpMetricsService.b_takeoffFrame
         ManualJumpMetricsService.b_landingFrame
         ManualJumpMetricsService.b_maxHeight
         ManualJumpMetricsService.b_rotations].
    exact_arith. repeat split.
    + intros Hpos. apply calculateJumpHeight_exact. lra.
    + intros Hneg. apply calculateJumpHeight_exact. lra.
    + intros Hinc. destruct analysis as [a|]; [|reflexivity].
      now rewrite (Hinc a eq_refl).
Qed.


(** ** Marker times that fall on a frame *)

(** X24.  In exact arithmetic: when the timestamps of the frames strictly
    increase and the target time is the timestamp of the frame at index [k],
    [findClosestFrameByTime] returns [k]. *)
Theorem time_of_a_frame_resolves_to_that_frame
    (frames : list (FrameAnalysis R)) (k : nat) (f : FrameAnalysis R) :
  timestamps_increase frames ->
  nth_error frames k = Some f ->
  findClosestFrameByTime frames (f_timestamp f) = Some (Z.of_nat k).
Proof.
  intros Hs Hk.
  destruct (findClosestFrameByTime frames (f_timestamp f)) as [i|] eqn:E.
  - destruct (findClosestFrameByTime_nearest _ _ E) as (g & Hg & Hmin).
    pose proof (findClosestFrameByTime_bound _ _ E) as Hb.
    destruct (Hmin k f Hk) as [Hle _].
    replace (f_timestamp f - f_timestamp f)%R with 0%R in Hle by lra.
    rewrite Rabs_R0 in Hle.
    assert (Eg : f_timestamp g = f_timestamp f).
    { pose proof (Rabs_pos (f_timestamp g - f_timestamp f)) as Hp.
      assert (Hz : Rabs (f_timestamp g - f_timestamp f) = 0%R) by lra.
      destruct (Req_dec (f_timestamp g - f_timestamp f) 0) as [Hd|Hd]; [lra|].
      now apply Rabs_no_R0 in Hd. }
    f_equal.
    destruct (Nat.lt_trichotomy (Z.to_nat i) k) as [Hlt|[Heq|Hgt]].
    + pose proof (StronglySorted_nth_error Hs Hlt Hg Hk) as Hc.
      cbv beta in Hc. lra.
    + lia.
    + pose proof (StronglySorted_nth_error Hs Hgt Hk Hg) as Hc.
      cbv beta in Hc. lra.
  - unfold findClosestFrameByTime in E. destruct frames; [|discriminate].
    now destruct k.
Qed.

Lemma time_of_a_frame_resolves_to_that_frame_witness :
  findClosestFrameByTime knee_dropout
    (f_timestamp {| f_timestamp := (1 / 30)%R; landmarks := None;
                    worldLandmarks := Some hip_only; processed := true |})
  = Some (Z.of_nat 1).
Proof.
  apply (@time_of_a_frame_resolves_to_that_frame knee_dropout 1
           {| f_timestamp := (1 / 30)%R; landmarks := None;
              worldLandmarks := Some hip_only; processed := true |}).
  - unfold timestamps_increase, knee_dropout.
    repeat constructor; cbn [f_timestamp]; lra.
  - reflexivity.
Defined.
